(** * Usage-window aggregator of the status-line script

    Shallow embedding of [get_claude_session_data_claude_monitor_exact]
    (scripts/context-monitor-generic.py): ingestion of the JSONL usage
    logs with de-duplication, construction of the rolling five-hour
    session blocks, the [is_active] pass and the selection of the block
    that is reported.

    Modelling conventions.
    - A decoded JSON document is a [json] value; objects are finite maps
      ([gmap string json]).  JSON numbers are the integers; numbers with
      a fractional part are outside the model.
    - Time is counted in microseconds, the resolution of [datetime].  An
      aware datetime is a wall-clock reading together with its UTC offset,
      and all comparisons and differences of aware datetimes are those of
      the instants [wall - utcoffset], as in Python.  A [datetime]
      holds the years 1 to 9999: where the source computes a new one,
      with [+ timedelta], [- timedelta] or [astimezone], a result
      outside [datetime_min .. datetime_max] raises [OverflowError].
    - The local zone of the machine, which [astimezone()] applies, is
      the member of the class [LocalZone].
    - The percentage is an exact rational, of which the source's float
      is the rounding; the [OverflowError] of [int / int] on a quotient
      that no float holds is modelled.
    - Python exceptions are values of [exn]; a computation that may raise
      has type [exn + A] and every [try/except] of the source is written
      out as a match on that sum.
    - [datetime.fromisoformat] and [str()] on values that are not strings
      are library functions; they are the members of the class
      [PythonLibrary], over which ingestion is parametrised.

    The same file's [get_directory_display],
    [parse_context_from_transcript] and [get_claude_session_reset] are
    embedded after the aggregator, under the same conventions. *)

From Stdlib Require Import ZArith QArith Lia Ascii.
From stdpp Require Import base option list gmap sets strings sorting.

Set Warnings "-register-all,-clear-no-such-hyp".
Local Open Scope Z_scope.

(** ** Decoded JSON values and the Python operations used on them *)

Inductive json :=
  | JNull
  | JBool (b : bool)
  | JInt (n : Z)
  | JStr (s : string)
  | JArr (l : list json)
  | JObj (m : gmap string json).

Inductive exn :=
  | JSONDecodeError
  | AttributeError
  | TypeError
  | ValueError
  | OverflowError
  | OSError.

(** Truth value of a decoded value ([if v:], [a or b], [a and b]). *)
Definition truthy (v : json) : bool :=
  match v with
  | JNull => false
  | JBool b => b
  | JInt n => negb (n =? 0)
  | JStr s => match s with EmptyString => false | String _ _ => true end
  | JArr l => match l with [] => false | _ :: _ => true end
  | JObj m => negb (size m =? 0)%nat
  end.

(** [a or b]: the first operand when it is truthy, else the second. *)
Definition py_or (a b : json) : json := if truthy a then a else b.

(** [v.get(key, default)]; only a dict has [get]. *)
Definition py_get (v : json) (key : string) (dflt : json) : exn + json :=
  match v with
  | JObj m => inr (default dflt (m !! key))
  | _ => inl AttributeError
  end.

(** [d.get(key, default)] on a value already known to be a dict. *)
Definition dict_get (m : gmap string json) (key : string) (dflt : json) : json :=
  default dflt (m !! key).

(** [v == 'literal'] for a string literal. *)
Definition py_eq_str (v : json) (lit : string) : bool :=
  match v with
  | JStr s => String.eqb s lit
  | _ => false
  end.

(** [v == 0]; [False == 0] holds in Python because [bool] is an [int]. *)
Definition py_eq_zero (v : json) : bool :=
  match v with
  | JInt n => n =? 0
  | JBool b => negb b
  | _ => false
  end.

(** The integer behind an [int] or [bool] operand of [+]. *)
Definition as_int (v : json) : option Z :=
  match v with
  | JInt n => Some n
  | JBool b => Some (if b then 1 else 0)
  | _ => None
  end.

(** [a + b]: numbers add, strings and lists concatenate, anything else
    raises [TypeError]. *)
Definition py_add (a b : json) : exn + json :=
  match as_int a, as_int b with
  | Some x, Some y => inr (JInt (x + y))
  | _, _ =>
      match a, b with
      | JStr s, JStr t => inr (JStr (String.append s t))
      | JArr l, JArr k => inr (JArr (l ++ k))
      | _, _ => inl TypeError
      end
  end.

(** [acc += v] for an integer accumulator [acc]. *)
Definition py_iadd (acc : Z) (v : json) : exn + Z :=
  match as_int v with
  | Some x => inr (acc + x)
  | None => inl TypeError
  end.

(** [s.replace('Z', '+00:00')]. *)
Fixpoint replace_Z (s : string) : string :=
  match s with
  | EmptyString => EmptyString
  | String c s' =>
      if Ascii.eqb c "Z"%char
      then String.append "+00:00" (replace_Z s')
      else String c (replace_Z s')
  end.

(** Sequencing of computations that may raise. *)
Definition raise_bind {A B : Type} (m : exn + A) (k : A → exn + B) : exn + B :=
  match m with
  | inl e => inl e
  | inr a => k a
  end.

Notation "'let?' x := m 'in' k" := (raise_bind m (λ x, k))
  (at level 10, x name, m at level 100, k at level 200, only parsing).

(** ** Datetimes *)

(** An aware datetime: wall-clock microseconds and UTC offset. *)
Record datetime := { wall : Z; utcoffset : Z }.

(** The result of [datetime.fromisoformat]: naive or aware. *)
Inductive parsed_datetime :=
  | Naive (w : Z)
  | Aware (d : datetime).

Definition instant (d : datetime) : Z := wall d - utcoffset d.

Definition timedelta_hours (h : Z) : Z := h * 3600000000.
Definition timedelta_seconds (s : Z) : Z := s * 1000000.

(** [d.replace(minute=0, second=0, microsecond=0)]: the wall clock is
    truncated to the hour, the offset is kept. *)
Definition replace_hour (d : datetime) : datetime :=
  {| wall := wall d - wall d `mod` 3600000000; utcoffset := utcoffset d |}.

(** The wall clocks a [datetime] can hold, in microseconds from
    1970-01-01T00:00:00: [datetime.min] is 0001-01-01T00:00:00 and
    [datetime.max] is 9999-12-31T23:59:59.999999. *)
Definition datetime_min : Z := -62135596800000000.
Definition datetime_max : Z := 253402300799999999.

Definition in_range (w : Z) : bool :=
  (datetime_min <=? w) && (w <=? datetime_max).

(** [d + delta]: the offset is kept; a result outside the years 1 to
    9999 raises [OverflowError]. *)
Definition dt_add (d : datetime) (delta : Z) : exn + datetime :=
  if in_range (wall d + delta)
  then inr {| wall := wall d + delta; utcoffset := utcoffset d |}
  else inl OverflowError.

(** The UTC offset, in microseconds, of the machine's local zone at an
    instant: what [astimezone()] applies. *)
Class LocalZone := { local_utcoffset : Z → Z }.

(** [d.astimezone()]: [d] is first converted to UTC, then the local
    offset is added; either step raises [OverflowError] when it leaves
    the years 1 to 9999. *)
Definition astimezone `{zone : LocalZone} (d : datetime) : exn + datetime :=
  if in_range (instant d)
  then
    let offset := local_utcoffset (instant d) in
    if in_range (instant d + offset)
    then inr {| wall := instant d + offset; utcoffset := offset |}
    else inl OverflowError
  else inl OverflowError.

(** ** Entries and blocks *)

Record entry := {
  timestamp : datetime;
  input_tokens : json;
  output_tokens : json;
  total_tokens : json;
  message_id : json;
  request_id : json;
  file : string
}.

Record block := {
  block_id : datetime;            (* start_time.isoformat() *)
  start_time : datetime;
  end_time : datetime;
  entries : list entry;
  block_total_tokens : Z;
  is_active : bool;
  actual_end_time : option datetime
}.

(** What the function returns: [{}] or one of the two dicts.
    [reset_time] is the block's [end_time], which the source renders in
    the local zone as HH:MM; [reported_block] is the ['block_id']. The
    ['approach'] and ['session_active'] items are fixed by the variant. *)
Inductive session_data :=
  | NoData
  | ActiveSession (reset_time : datetime) (cost_percent : Q) (tokens_used : Z)
      (reported_block : datetime) (session_blocks : nat)
  | ExpiredSession (cost_percent : Q) (tokens_used : Z).

(** ** Ingestion: the loop over files and lines *)

(** A line of a log file: blank after [strip()], rejected by
    [json.loads], or decoded. *)
Inductive raw_line :=
  | Blank
  | Malformed
  | Decoded (data : json).

(** A log file found by the glob patterns.  [content] is [None] when
    [open] raises, otherwise the lines the iteration yields. *)
Record log_file := { path : string; content : option (list raw_line) }.

Record ingest_state := {
  all_entries : list entry;
  processed_hashes : gset string
}.

Definition ingest_init : ingest_state :=
  {| all_entries := []; processed_hashes := ∅ |}.

(** The two library functions the ingestion calls:
    [datetime.fromisoformat], where [None] stands for [ValueError], and
    [str(v)] as an f-string renders a value that is not a [str]. *)
Class PythonLibrary := {
  fromisoformat : string → option parsed_datetime;
  py_str : json → string
}.

Section Ingestion.

Context `{lib : PythonLibrary}.

Definition format_value (v : json) : string :=
  match v with
  | JStr s => s
  | _ => py_str v
  end.

(** [datetime.fromisoformat(timestamp_str.replace('Z', '+00:00'))];
    only a [str] has [replace]. *)
Definition parse_timestamp (timestamp_str : json) : exn + parsed_datetime :=
  match timestamp_str with
  | JStr s =>
      match fromisoformat (replace_Z s) with
      | Some d => inr d
      | None => inl ValueError
      end
  | _ => inl AttributeError
  end.

(** [message_id], [request_id] and [unique_hash] of a decoded dict. *)
Definition line_message_id (data : gmap string json) : json :=
  let message := dict_get data "message" (JObj ∅) in
  py_or (dict_get data "message_id" JNull)
        (match message with
         | JObj m => dict_get m "id" JNull
         | _ => JNull
         end).

Definition line_request_id (data : gmap string json) : json :=
  py_or (dict_get data "requestId" JNull) (dict_get data "request_id" JNull).

Definition unique_hash (data : gmap string json) : option string :=
  let message_id := line_message_id data in
  let request_id := line_request_id data in
  if truthy message_id && truthy request_id
  then Some (String.append (format_value message_id)
               (String.append ":" (format_value request_id)))
  else None.

(** [unique_hash and unique_hash in processed_hashes]; a hash contains
    the colon, so it is never the empty string. *)
Definition already_processed (h : option string) (st : ingest_state) : bool :=
  match h with
  | Some k => bool_decide (k ∈ processed_hashes st)
  | None => false
  end.

Definition record_hash (h : option string) (hashes : gset string) : gset string :=
  match h with
  | Some k => {[ k ]} ∪ hashes
  | None => hashes
  end.

(** [all_entries.append(entry)] and, for a line with a hash,
    [processed_hashes.add(unique_hash)]. *)
Definition accept_entry (st : ingest_state) (en : entry) (h : option string)
    : ingest_state :=
  {| all_entries := all_entries st ++ [en];
     processed_hashes := record_hash h (processed_hashes st) |}.

(** The body of the inner [try] for one decoded line.  [inr st] with the
    state unchanged is a line that is passed over ([continue] or a false
    [if]); [inl e] is an exception, caught by the bare [except]. *)
Definition process_line (cutoff_time : Z) (file_path : string)
    (st : ingest_state) (data : json) : exn + ingest_state :=
  match data with
  | JObj d =>
      if negb (py_eq_str (dict_get d "type" JNull) "assistant") then inr st else
      let timestamp_str := dict_get d "timestamp" JNull in
      if negb (truthy timestamp_str) then inr st else
      let? parsed := parse_timestamp timestamp_str in
      match parsed with
      | Naive _ => inl TypeError   (* naive >= aware *)
      | Aware ts =>
          if instant ts <? cutoff_time then inr st else
          let message_id := line_message_id d in
          let request_id := line_request_id d in
          let h := unique_hash d in
          if already_processed h st then inr st else
          let? usage := py_get (dict_get d "message" (JObj ∅)) "usage" (JObj ∅) in
          if negb (truthy usage) then inr st else
          let? input := py_get usage "input_tokens" (JInt 0) in
          let? output := py_get usage "output_tokens" (JInt 0) in
          if py_eq_zero input && py_eq_zero output then inr st else
          let? total := py_add input output in
          inr (accept_entry st
                 {| timestamp := ts;
                    input_tokens := input;
                    output_tokens := output;
                    total_tokens := total;
                    message_id := py_or message_id (JStr "");
                    request_id := py_or request_id (JStr "unknown");
                    file := file_path |} h)
      end
  | _ => inl AttributeError        (* data.get on a value that is no dict *)
  end.

(** One iteration of [for line in f]. *)
Definition ingest_line (cutoff_time : Z) (file_path : string)
    (st : ingest_state) (line : raw_line) : ingest_state :=
  match line with
  | Blank => st
  | Malformed => st               (* JSONDecodeError, except: continue *)
  | Decoded data =>
      match process_line cutoff_time file_path st data with
      | inr st' => st'
      | inl _ => st                (* except: continue *)
      end
  end.

(** One iteration of [for file_path in recent_files]. *)
Definition ingest_file (cutoff_time : Z) (st : ingest_state) (f : log_file)
    : ingest_state :=
  match content f with
  | Some lines => foldl (ingest_line cutoff_time (path f)) st lines
  | None => st                     (* open failed, except: continue *)
  end.

Definition load_entries (cutoff_time : Z) (recent_files : list log_file)
    : ingest_state :=
  foldl (ingest_file cutoff_time) ingest_init recent_files.

(** The lines in the order in which the two loops visit them, each
    with the path of its file. *)
Definition visited_lines (recent_files : list log_file)
    : list (string * raw_line) :=
  f ← recent_files;
  match content f with
  | Some lines => (λ line, (path f, line)) <$> lines
  | None => []
  end.

Definition ingest_lines (cutoff_time : Z) (st : ingest_state)
    (lines : list (string * raw_line)) : ingest_state :=
  foldl (λ st x, ingest_line cutoff_time x.1 st x.2) st lines.

(** The dedup key a line carries, if any. *)
Definition line_key (line : raw_line) : option string :=
  match line with
  | Decoded (JObj d) => unique_hash d
  | _ => None
  end.

End Ingestion.

(** ** Sorting: [all_entries.sort(key=lambda x: x['timestamp'])]

    [list.sort] is stable, and a stable sort is determined by the order
    of the keys; it is written here as an insertion sort that keeps the
    order of entries with equal instants. *)

Fixpoint insert_entry (e : entry) (l : list entry) : list entry :=
  match l with
  | [] => [e]
  | y :: l' =>
      if instant (timestamp e) <=? instant (timestamp y)
      then e :: l
      else y :: insert_entry e l'
  end.

Fixpoint sort_entries (l : list entry) : list entry :=
  match l with
  | [] => []
  | e :: l' => insert_entry e (sort_entries l')
  end.

(** ** Block construction (the [for entry in all_entries] loop) *)

Definition session_duration : Z := timedelta_hours 5.

Record build_state := {
  session_blocks : list block;
  current_block : option block
}.

Definition build_init : build_state :=
  {| session_blocks := []; current_block := None |}.

Definition should_create_new_block (cur : option block) (e : entry) : bool :=
  match cur with
  | None => true
  | Some b =>
      (instant (end_time b) <=? instant (timestamp e)) ||
      match last (entries b) with
      | Some l =>
          timedelta_hours 2 <=? instant (timestamp e) - instant (timestamp l)
      | None => false
      end
  end.

(** A block that is finalised: [actual_end_time] is set to the
    timestamp of its last entry. *)
Definition close_block (b : block) (last_entry : entry) : block :=
  {| block_id := block_id b;
     start_time := start_time b;
     end_time := end_time b;
     entries := entries b;
     block_total_tokens := block_total_tokens b;
     is_active := is_active b;
     actual_end_time := Some (timestamp last_entry) |}.

(** [if current_block and current_block['entries']: ... append]. *)
Definition finalize (blocks : list block) (cur : option block) : list block :=
  match cur with
  | Some b =>
      match last (entries b) with
      | Some l => blocks ++ [close_block b l]
      | None => blocks
      end
  | None => blocks
  end.

(** The new rolling block; [start_time + session_duration] raises
    [OverflowError] when the window would end after the year 9999. *)
Definition new_block (e : entry) : exn + block :=
  let start := replace_hour (timestamp e) in
  let? end_ := dt_add start session_duration in
  inr {| block_id := start;
         start_time := start;
         end_time := end_;
         entries := [];
         block_total_tokens := 0;
         is_active := false;
         actual_end_time := None |}.

(** [current_block['entries'].append(entry)] followed by
    [current_block['total_tokens'] += entry['total_tokens']], which
    raises [TypeError] when the entry's total is not a number. *)
Definition add_entry (b : block) (e : entry) : exn + block :=
  let? total := py_iadd (block_total_tokens b) (total_tokens e) in
  inr {| block_id := block_id b;
         start_time := start_time b;
         end_time := end_time b;
         entries := entries b ++ [e];
         block_total_tokens := total;
         is_active := is_active b;
         actual_end_time := actual_end_time b |}.

Definition build_step (st : build_state) (e : entry) : exn + build_state :=
  match should_create_new_block (current_block st) e, current_block st with
  | false, Some b =>
      let? b' := add_entry b e in
      inr {| session_blocks := session_blocks st; current_block := Some b' |}
  | _, cur =>
      let? b0 := new_block e in
      let? b' := add_entry b0 e in
      inr {| session_blocks := finalize (session_blocks st) cur; current_block := Some b' |}
  end.

Fixpoint build_loop (st : build_state) (l : list entry) : exn + build_state :=
  match l with
  | [] => inr st
  | e :: l' => let? st' := build_step st e in build_loop st' l'
  end.

(** The loop and the finalisation of the last block. *)
Definition transform_to_blocks (sorted_entries : list entry) : exn + list block :=
  let? st := build_loop build_init sorted_entries in
  inr (finalize (session_blocks st) (current_block st)).

(** ** The [is_active] pass *)

Definition qualifies (now : Z) (b : block) : bool :=
  (now <? instant (end_time b)) &&
  (3 <=? length (entries b))%nat &&
  match last (entries b) with
  | Some l => now - instant (timestamp l) <=? timedelta_seconds 1800
  | None => false
  end.

Definition mark_block (now : Z) (b : block) : block :=
  if qualifies now b
  then {| block_id := block_id b;
          start_time := start_time b;
          end_time := end_time b;
          entries := entries b;
          block_total_tokens := block_total_tokens b;
          is_active := true;
          actual_end_time := actual_end_time b |}
  else b.

Definition mark_active (now : Z) (blocks : list block) : list block :=
  mark_block now <$> blocks.

(** ** Selection and the returned dict *)

(** [max(l, key=lambda x: x['start_time'])]: the first block whose start
    is the latest. *)
Fixpoint max_from (best : block) (l : list block) : block :=
  match l with
  | [] => best
  | b :: l' =>
      max_from (if instant (start_time best) <? instant (start_time b)
                then b else best) l'
  end.

Definition max_start (l : list block) : option block :=
  match l with
  | [] => None
  | b :: l' => Some (max_from b l')
  end.

(** [(total_tokens / 88000) * 100] as an exact rational; the float of
    the source is its rounding. *)
Definition cost_percent_of (total : Z) : Q :=
  (inject_Z total / inject_Z 88000) * inject_Z 100.

(** [total / 88000] on an [int] raises [OverflowError] when the
    quotient, rounded to the nearest float, exceeds the largest one:
    from [2^1024 - 2^970] on. *)
Definition true_divide_overflows (total : Z) : bool :=
  88000 * (2 ^ 1024 - 2 ^ 970) <=? Z.abs total.

(** [(total_tokens / 88000) * 100]; the product of floats does not
    raise. *)
Definition cost_percent (total : Z) : exn + Q :=
  if true_divide_overflows total then inl OverflowError
  else inr (cost_percent_of total).

Section Select.

Context `{zone : LocalZone}.

(** The dict of the active branch: its items are evaluated in order,
    ['reset_time'] first, then ['cost_percent']. *)
Definition active_report (session_blocks : list block) (current_session : block)
    : exn + session_data :=
  let? _ := astimezone (end_time current_session) in
  let? percent := cost_percent (block_total_tokens current_session) in
  inr (ActiveSession (end_time current_session)
         percent
         (block_total_tokens current_session)
         (block_id current_session)
         (length session_blocks)).

Definition select (session_blocks : list block) : exn + session_data :=
  match max_start (filter (λ b, is_active b = true) session_blocks) with
  | Some current_session => active_report session_blocks current_session
  | None =>
      match max_start session_blocks with
      | Some latest_block =>
          inr (ExpiredSession (inject_Z 100) (block_total_tokens latest_block))
      | None => inr NoData
      end
  end.

(** The block list after the [is_active] pass. *)
Definition marked_blocks (now : Z) (entries_in : list entry) : exn + list block :=
  let? blocks := transform_to_blocks (sort_entries entries_in) in
  inr (mark_active now blocks).

(** Everything after ingestion, inside the outer [try]. *)
Definition analyze (now : Z) (entries_in : list entry) : exn + session_data :=
  match entries_in with
  | [] => inr NoData                  (* if not all_entries: return {} *)
  | _ :: _ =>
      let? blocks := marked_blocks now entries_in in
      select blocks
  end.

End Select.

Definition hours_back : Z := 192.

Section Aggregator.

Context `{lib : PythonLibrary} `{zone : LocalZone}.

(** [now - timedelta(hours=hours_back)] raises [OverflowError] when the
    clock is within eight days of [datetime.min]. *)
Definition session_body (now : Z) (recent_files : list log_file)
    : exn + session_data :=
  if in_range (now - timedelta_hours hours_back) then
    let cutoff_time := now - timedelta_hours hours_back in
    match recent_files with
    | [] => inr NoData                (* if not recent_files: return {} *)
    | _ :: _ =>
        analyze now
          (all_entries (load_entries cutoff_time recent_files))
    end
  else inl OverflowError.

(** The function with its outer [except Exception: return {}]. *)
Definition get_claude_session_data_claude_monitor_exact
    (now : Z) (recent_files : list log_file) : session_data :=
  match session_body now recent_files with
  | inr r => r
  | inl _ => NoData
  end.

End Aggregator.

(** * The directory shown in the status line ([get_directory_display])

    Paths are POSIX paths ([os.path] is [posixpath]).  Strings are byte
    strings in UTF-8; [startswith], the slice after a matched prefix,
    [lstrip('/')] and [rfind('/')] act on them as they do on the code
    points, the slash being a single byte that occurs in no other
    character. *)

(** [s[n:]]. *)
Fixpoint str_drop (n : nat) (s : string) : string :=
  match n, s with
  | O, _ => s
  | S n', String _ s' => str_drop n' s'
  | S _, EmptyString => EmptyString
  end.

(** [s.lstrip('/')]. *)
Fixpoint lstrip_slash (s : string) : string :=
  match s with
  | String c s' => if Ascii.eqb c "/"%char then lstrip_slash s' else s
  | EmptyString => EmptyString
  end.

(** [p.rfind('/')]: the index of the last slash, or -1. *)
Fixpoint rfind_slash (p : string) : Z :=
  match p with
  | EmptyString => -1
  | String c p' =>
      let r := rfind_slash p' in
      if 0 <=? r then r + 1
      else if Ascii.eqb c "/"%char then 0 else -1
  end.

(** [posixpath.basename]: [i = p.rfind('/') + 1; return p[i:]]. *)
Definition posix_basename (p : string) : string :=
  str_drop (Z.to_nat (rfind_slash p + 1)) p.

(** [os.path.basename(v)]; [os.fspath] rejects what is not a [str]. *)
Definition os_path_basename (v : json) : exn + string :=
  match v with
  | JStr p => inr (posix_basename p)
  | _ => inl TypeError
  end.

(** [v.startswith(prefix)]: only a [str] has the method, and its
    argument must be a [str]. *)
Definition py_startswith (v prefix : json) : exn + bool :=
  match v with
  | JStr s =>
      match prefix with
      | JStr p => inr (String.prefix p s)
      | _ => inl TypeError
      end
  | _ => inl AttributeError
  end.

Definition get_directory_display (workspace_data : json) : exn + string :=
  let? current_dir := py_get workspace_data "current_dir" (JStr "") in
  let? project_dir := py_get workspace_data "project_dir" (JStr "") in
  if truthy current_dir && truthy project_dir then
    let? inside := py_startswith current_dir project_dir in
    if inside then
      match current_dir, project_dir with
      | JStr c, JStr p =>
          let rel_path := lstrip_slash (str_drop (String.length p) c) in
          if truthy (JStr rel_path) then inr rel_path
          else os_path_basename project_dir
      | _, _ => inl TypeError        (* not reached: startswith returned *)
      end
    else os_path_basename current_dir
  else if truthy project_dir then os_path_basename project_dir
  else if truthy current_dir then os_path_basename current_dir
  else inr "unknown"%string.

(** The string contains a slash. *)
Fixpoint has_slash (s : string) : bool :=
  match s with
  | EmptyString => false
  | String c s' => Ascii.eqb c "/"%char || has_slash s'
  end.

(** A [workspace] object with the two directories. *)
Definition workspace_of (current_dir project_dir : string) : json :=
  JObj {[ "current_dir" := JStr current_dir; "project_dir" := JStr project_dir ]}.

(** * The context estimate ([parse_context_from_transcript])

    The function reads the transcript, keeps its last thirty lines and
    goes through them three times, newest line first: for a system
    warning, for token counts, and for message sizes.  Inside the loops
    only [JSONDecodeError], [KeyError] and [ValueError] are caught, so an
    [AttributeError] or [TypeError] leaves the function; around them only
    [FileNotFoundError] and [PermissionError] are caught.  Percentages
    that the source computes in floating point are exact rationals
    here. *)

(** [re.search(r'Context low \((\d+)% remaining\)', content)] and
    [re.search(r'Context left until auto-compact: (\d+)%', content)], each
    followed by [int(match.group(1))]: [inr None] when there is no match,
    [inl ValueError] when [int] rejects the digits (it does so for more
    digits than the interpreter's limit). *)
Class RegexLibrary := {
  search_context_low : string → exn + option Z;
  search_auto_compact : string → exn + option Z
}.

(** [except (json.JSONDecodeError, KeyError, ValueError): continue]. *)
Definition caught_in_loop (e : exn) : bool :=
  match e with
  | JSONDecodeError | ValueError => true
  | _ => false
  end.

(** The transcript as the function finds it. *)
Inductive transcript :=
  | NoTranscript                      (* not transcript_path *)
  | FileMissing                       (* not os.path.exists(...) *)
  | OpenRefused                       (* FileNotFoundError, PermissionError *)
  | ReadRaises (e : exn)              (* another exception of open/readlines *)
  | Lines (lines : list raw_line).

(** The returned dict, by its ['method']. *)
Inductive context_info :=
  | FixedEstimate (method : string)   (* 'percent': 15, 'accurate': False *)
  | SystemWarning (percent : Z) (warning : string)
  | RealTokens (percent : Q) (tokens_used : Z) (cache_tokens : option Z)
  | EnhancedEstimate (percent : Q) (messages : Z) (content_length : Z).

(** [lines[-30:] if len(lines) > 30 else lines]. *)
Definition recent_lines (lines : list raw_line) : list raw_line :=
  if (30 <? length lines)%nat then drop (length lines - 30) lines else lines.

(** [min(a, x)] for an integer [a] and a computed [x]. *)
Definition py_min (a : Z) (x : Q) : Q :=
  if Qle_bool (inject_Z a) x then inject_Z a else x.

(** [len(s)] for a [str]: the number of code points, which in UTF-8 is
    the number of bytes that are not continuation bytes. *)
Fixpoint utf8_length (s : string) : Z :=
  match s with
  | EmptyString => 0
  | String c s' =>
      let n := Z.of_nat (nat_of_ascii c) in
      (if (128 <=? n) && (n <? 192) then 0 else 1) + utf8_length s'
  end.

(** [len(v)]. *)
Definition py_len (v : json) : exn + Z :=
  match v with
  | JStr s => inr (utf8_length s)
  | JArr l => inr (Z.of_nat (length l))
  | JObj m => inr (Z.of_nat (size m))
  | _ => inl TypeError
  end.

Record token_scan := {
  max_tokens_seen : Z;
  total_input_tokens : json;
  total_cache_tokens : Z;
  message_count : Z
}.

Record depth_scan := {
  conversation_depth : Z;
  total_content_length : Z
}.

Section ContextEstimate.

Context `{re : RegexLibrary}.

(** The body of the first loop for a decoded line: the warning it
    carries, if any. *)
Definition system_warning (data : json) : exn + option context_info :=
  let? type := py_get data "type" JNull in
  if py_eq_str type "system_message" then
    let? content := py_get data "content" (JStr "") in
    match content with
    | JStr c =>
        let? low := search_context_low c in
        match low with
        | Some percent_left => inr (Some (SystemWarning (100 - percent_left) "low"))
        | None =>
            let? compact := search_auto_compact c in
            match compact with
            | Some percent_left =>
                inr (Some (SystemWarning (100 - percent_left) "auto-compact"))
            | None => inr None
            end
        end
    | _ => inl TypeError               (* re.search on what is no str *)
    end
  else inr None.

(** The first loop, over [reversed(recent_lines)]. *)
Fixpoint find_warning (reversed_lines : list raw_line) : exn + option context_info :=
  match reversed_lines with
  | [] => inr None
  | Decoded data :: rest =>
      match system_warning data with
      | inr (Some info) => inr (Some info)
      | inr None => find_warning rest
      | inl e => if caught_in_loop e then find_warning rest else inl e
      end
  | _ :: rest => find_warning rest     (* JSONDecodeError: continue *)
  end.

(** The body of the second loop: the new state and whether the loop
    breaks. *)
Definition scan_usage (st : token_scan) (data : json) : exn + (token_scan * bool) :=
  let? type := py_get data "type" JNull in
  if py_eq_str type "assistant" then
    let? message := py_get data "message" (JObj ∅) in
    let? usage := py_get message "usage" (JObj ∅) in
    if truthy usage then
      let? input_tokens := py_get usage "input_tokens" (JInt 0) in
      let? cache_read := py_get usage "cache_read_input_tokens" (JInt 0) in
      let? cache_creation := py_get usage "cache_creation_input_tokens" (JInt 0) in
      let? partial := py_add input_tokens cache_read in
      let? current_total := py_add partial cache_creation in
      match as_int current_total with
      | Some total =>
          let? st1 :=
            if max_tokens_seen st <? total then
              (* both are numbers here, their sum with input_tokens being one *)
              let? cache := py_add cache_read cache_creation in
              inr {| max_tokens_seen := total;
                     total_input_tokens := input_tokens;
                     total_cache_tokens := default 0 (as_int cache);
                     message_count := message_count st |}
            else inr st in
          let count := message_count st1 + 1 in
          inr ({| max_tokens_seen := max_tokens_seen st1;
                  total_input_tokens := total_input_tokens st1;
                  total_cache_tokens := total_cache_tokens st1;
                  message_count := count |},
               5 <=? count)
      | None => inl TypeError          (* str > int, list > int *)
      end
    else inr (st, false)
  else inr (st, false).

Fixpoint scan_tokens (st : token_scan) (reversed_lines : list raw_line)
    : exn + token_scan :=
  match reversed_lines with
  | [] => inr st
  | Decoded data :: rest =>
      match scan_usage st data with
      | inr (st', stop) => if stop then inr st' else scan_tokens st' rest
      | inl e => if caught_in_loop e then scan_tokens st rest else inl e
      end
  | _ :: rest => scan_tokens st rest   (* JSONDecodeError: continue *)
  end.

(** [len(item.get('text', ''))] for a dict item of type [text], else
    nothing is added. *)
Definition text_length (item : json) : exn + Z :=
  match item with
  | JObj m =>
      if py_eq_str (dict_get m "type" JNull) "text"
      then py_len (dict_get m "text" (JStr ""))
      else inr 0
  | _ => inr 0
  end.

Fixpoint content_length_of (items : list json) : exn + Z :=
  match items with
  | [] => inr 0
  | item :: rest =>
      let? n := text_length item in
      let? m := content_length_of rest in
      inr (n + m)
  end.

(** The body of the third loop. *)
Definition scan_depth (st : depth_scan) (data : json) : exn + (depth_scan * bool) :=
  let? type := py_get data "type" JNull in
  if py_eq_str type "assistant" || py_eq_str type "user" then
    let depth := conversation_depth st + 1 in
    let? message := py_get data "message" (JObj ∅) in
    let? content := py_get message "content" (JArr []) in
    let? added :=
      match content with
      | JArr items => content_length_of items
      | _ => inr 0
      end in
    inr ({| conversation_depth := depth;
            total_content_length := total_content_length st + added |},
         15 <=? depth)
  else inr (st, false).

Fixpoint scan_messages (st : depth_scan) (reversed_lines : list raw_line)
    : exn + depth_scan :=
  match reversed_lines with
  | [] => inr st
  | Decoded data :: rest =>
      match scan_depth st data with
      | inr (st', stop) => if stop then inr st' else scan_messages st' rest
      | inl e => if caught_in_loop e then scan_messages st rest else inl e
      end
  | _ :: rest => scan_messages st rest (* JSONDecodeError: continue *)
  end.

Definition CONTEXT_LIMIT : Z := 200000.

(** The three passes over the lines that were read. *)
Definition estimate_from_lines (lines : list raw_line) : exn + context_info :=
  let newest_first := reverse (recent_lines lines) in
  let? warning := find_warning newest_first in
  match warning with
  | Some info => inr info
  | None =>
      let? tokens :=
        scan_tokens {| max_tokens_seen := 0; total_input_tokens := JInt 0;
                       total_cache_tokens := 0; message_count := 0 |}
                    newest_first in
      if 0 <? max_tokens_seen tokens then
        let real_percent :=
          py_min 99 ((inject_Z (max_tokens_seen tokens) / inject_Z CONTEXT_LIMIT)
                     * inject_Z 100) in
        inr (RealTokens real_percent (max_tokens_seen tokens)
               (if 0 <? total_cache_tokens tokens
                then Some (total_cache_tokens tokens) else None))
      else
        let? depth :=
          scan_messages {| conversation_depth := 0; total_content_length := 0 |}
                        newest_first in
        if 0 <? conversation_depth depth then
          let base_percent :=
            py_min 20 (inject_Z (conversation_depth depth) * (3 # 2)) in
          let content_factor :=
            py_min 30 (inject_Z (total_content_length depth) / inject_Z 1000) in
          inr (EnhancedEstimate (py_min 85 (base_percent + content_factor))
                 (conversation_depth depth) (total_content_length depth))
        else inr (FixedEstimate "default")
  end.

Definition parse_context_from_transcript (t : transcript) : exn + context_info :=
  match t with
  | NoTranscript => inr (FixedEstimate "no_transcript")
  | FileMissing => inr (FixedEstimate "file_missing")
  | OpenRefused => inr (FixedEstimate "error")
  | ReadRaises e => inl e
  | Lines lines => estimate_from_lines lines
  end.

End ContextEstimate.

(** The ['method'] and ['percent'] items of the returned dict. *)
Definition method_of (info : context_info) : string :=
  match info with
  | FixedEstimate method => method
  | SystemWarning _ _ => "claude_system"
  | RealTokens _ _ (Some _) => "real_tokens_with_cache"
  | RealTokens _ _ None => "real_tokens_basic"
  | EnhancedEstimate _ _ _ => "enhanced_estimate"
  end.

Definition percent_of (info : context_info) : Q :=
  match info with
  | FixedEstimate _ => inject_Z 15
  | SystemWarning percent _ => inject_Z percent
  | RealTokens percent _ _ => percent
  | EnhancedEstimate percent _ _ => percent
  end.

(** * The reset display ([get_claude_session_reset])

    The aggregator renders the end of the active block with
    [astimezone().strftime('%H:%M')]; the model keeps the datetime in
    [ActiveSession] and renders it here, where the string is used. *)

Definition digit_char (n : Z) : ascii := ascii_of_nat (48 + Z.to_nat n).

(** [%H] and [%M]: two decimal digits. *)
Definition two_digits (n : Z) : string :=
  String (digit_char (n / 10)) (String (digit_char (n `mod` 10)) EmptyString).

Section ResetDisplay.

Context `{zone : LocalZone}.

(** [d.astimezone().strftime('%H:%M')]. *)
Definition local_hour_minute (d : datetime) : string :=
  let local_wall := instant d + local_utcoffset (instant d) in
  String.append (two_digits ((local_wall / 3600000000) `mod` 24))
    (String ":" (two_digits ((local_wall / 60000000) `mod` 60))).

(** The ['reset_time'] item of the returned dict. *)
Definition reset_time_item (data : session_data) : string :=
  match data with
  | NoData => EmptyString
  | ActiveSession reset _ _ _ _ => local_hour_minute reset
  | ExpiredSession _ _ => "EXPIRED"
  end.

Definition get_claude_session_reset (data : session_data) : string :=
  match data with
  | NoData => "L.R. @ --:--"          (* not session_data *)
  | _ =>
      let reset_time := reset_time_item data in
      if String.eqb reset_time "EXPIRED" then "L.R. EXPIRED"
      else if truthy (JStr reset_time)
           then String.append "L.R. @ " (String.append reset_time "🕐")
           else "L.R. @ --:--"
  end%string.

End ResetDisplay.

(** * Specification vocabulary *)

(** The entry's total is a number, so that adding it to a block's
    running total does not raise. *)
Definition numeric_total (e : entry) : bool :=
  match as_int (total_tokens e) with
  | Some _ => true
  | None => false
  end.

Definition entry_total (e : entry) : Z := default 0 (as_int (total_tokens e)).

Definition sum_totals (l : list entry) : Z :=
  foldr (λ e acc, entry_total e + acc) 0 l.

(** Ascending order of instants. *)
Definition by_instant (x y : entry) : Prop :=
  instant (timestamp x) ≤ instant (timestamp y).

(** [y] extended a block that ends at [block_end] and whose last entry
    was [x]. *)
Definition joined (block_end : Z) (x y : entry) : Prop :=
  instant (timestamp y) < block_end ∧
  instant (timestamp y) - instant (timestamp x) < timedelta_hours 2.

(** The five-hour window opened at the hour of [e] ends within the
    years a [datetime] can hold. *)
Definition window_representable (e : entry) : bool :=
  in_range (wall (replace_hour (timestamp e)) + session_duration).

(** What the loop guarantees of every block it builds. *)
Definition block_ok (b : block) : Prop :=
  ∃ first rest,
    entries b = first :: rest ∧
    start_time b = replace_hour (timestamp first) ∧
    block_id b = start_time b ∧
    dt_add (start_time b) session_duration = inr (end_time b) ∧
    block_total_tokens b = sum_totals (entries b) ∧
    is_active b = false ∧
    Sorted (joined (instant (end_time b))) (entries b).

(** The dict of the active branch can be built for [b]: the end of the
    block converts to local time, and the quotient of its total by 88000
    fits a float. *)
Definition reportable `{zone : LocalZone} (b : block) : bool :=
  in_range (instant (end_time b)) &&
  in_range (instant (end_time b) + local_utcoffset (instant (end_time b))) &&
  negb (true_divide_overflows (block_total_tokens b)).

(** [b'] was opened right after [b]: its first entry lies past the end
    of [b] or at least two hours after the last entry of [b]. *)
Definition split_after (b b' : block) : Prop :=
  ∃ l f,
    last (entries b) = Some l ∧ head (entries b') = Some f ∧
    (instant (end_time b) ≤ instant (timestamp f) ∨
     timedelta_hours 2 ≤ instant (timestamp f) - instant (timestamp l)).

(** A decoded line that is an event with [input_tokens == 0] and
    [output_tokens == 0] (a missing count reads as 0). *)
Definition zero_token_event (data : json) : bool :=
  match data with
  | JObj d =>
      match py_get (dict_get d "message" (JObj ∅)) "usage" (JObj ∅) with
      | inr usage =>
          match py_get usage "input_tokens" (JInt 0),
                py_get usage "output_tokens" (JInt 0) with
          | inr input, inr output => py_eq_zero input && py_eq_zero output
          | _, _ => false
          end
      | inl _ => false
      end
  | _ => false
  end.

Definition cur_entries (st : build_state) : list entry :=
  match current_block st with
  | Some b => entries b
  | None => []
  end.

Definition open_ok (st : build_state) : Prop :=
  match current_block st with
  | Some b => block_ok b
  | None => True
  end.

(** What an accepted entry is known to satisfy. *)
Definition accepted_entry (cutoff_time : Z) (file_path : string) (en : entry) : Prop :=
  file en = file_path ∧
  cutoff_time ≤ instant (timestamp en) ∧
  py_eq_zero (input_tokens en) && py_eq_zero (output_tokens en) = false ∧
  py_add (input_tokens en) (output_tokens en) = inr (total_tokens en).

(** ** Sample data used to exercise the model *)

Definition utc (seconds : Z) : datetime :=
  {| wall := timedelta_seconds seconds; utcoffset := 0 |}.

(** An entry logged at [seconds] after the epoch (UTC) with [tokens]
    input tokens. *)
Definition sample_entry (seconds tokens : Z) : entry :=
  {| timestamp := utc seconds;
     input_tokens := JInt tokens;
     output_tokens := JInt 0;
     total_tokens := JInt tokens;
     message_id := JStr "";
     request_id := JStr "unknown";
     file := "session.jsonl" |}.

(** 2024-01-01T10:15:00Z and 2024-01-01T11:12:00Z in epoch seconds. *)
Definition t_1015 : Z := 1704104100.
Definition t_1112 : Z := 1704107520.

(** An event log with entries later than now: three entries just
    before 11:12 and three entries three hours later. *)
Definition skewed_log : list entry :=
  [sample_entry (t_1112 - 600) 500; sample_entry (t_1112 - 300) 500;
   sample_entry (t_1112 - 60) 500;
   sample_entry (t_1112 + 10800) 500; sample_entry (t_1112 + 10860) 500;
   sample_entry (t_1112 + 10920) 500].

(** The values of [datetime.fromisoformat] on the timestamps of the
    sample lines (after [Z] has been replaced). *)
Definition fromisoformat_sample (s : string) : option parsed_datetime :=
  if String.eqb s "2024-01-01T10:15:00+00:00" then Some (Aware (utc t_1015))
  else if String.eqb s "2024-01-01T10:45:00+00:00"
       then Some (Aware (utc (t_1015 + 1800)))
       else None.

(** The sample lines carry string identifiers only, which an f-string
    renders as they are. *)
Definition py_str_sample (v : json) : string := "".

(** An assistant record with a usage object. *)
Definition usage_line (ts mid rid : string) (inp out : Z) : raw_line :=
  Decoded (JObj
    {[ "type" := JStr "assistant";
       "timestamp" := JStr ts;
       "message_id" := JStr mid;
       "requestId" := JStr rid;
       "message" := JObj {[ "usage" :=
            JObj {[ "input_tokens" := JInt inp; "output_tokens" := JInt out ]} ]} ]}).

Definition line_a : raw_line :=
  usage_line "2024-01-01T10:15:00Z" "msg_1" "req_1" 100 50.
(** The same message logged again, with other counts. *)
Definition line_a_again : raw_line :=
  usage_line "2024-01-01T10:45:00Z" "msg_1" "req_1" 300 90.
Definition line_zero : raw_line :=
  usage_line "2024-01-01T10:15:00Z" "msg_2" "req_2" 0 0.
Definition line_late : raw_line :=
  usage_line "2024-01-01T10:45:00Z" "msg_2" "req_2" 5 7.
Definition line_bad_time : raw_line :=
  usage_line "yesterday" "msg_3" "req_3" 5 7.

(** A record without message or request identifier. *)
Definition line_keyless : raw_line :=
  Decoded (JObj
    {[ "type" := JStr "assistant";
       "timestamp" := JStr "2024-01-01T10:15:00Z";
       "message" := JObj {[ "usage" :=
            JObj {[ "input_tokens" := JInt 20; "output_tokens" := JInt 10 ]} ]} ]}).

(** A record whose token counts are strings. *)
Definition line_string_counts : raw_line :=
  Decoded (JObj
    {[ "type" := JStr "assistant";
       "timestamp" := JStr "2024-01-01T10:45:00Z";
       "message" := JObj {[ "usage" :=
            JObj {[ "input_tokens" := JStr "12"; "output_tokens" := JStr "7" ]} ]} ]}).

(** The entry that [line_a] contributes when read from [file_path]. *)
Definition sample_entry_of_line_a (file_path : string) : entry :=
  {| timestamp := utc t_1015;
     input_tokens := JInt 100;
     output_tokens := JInt 50;
     total_tokens := JInt 150;
     message_id := JStr "msg_1";
     request_id := JStr "req_1";
     file := file_path |}.

Definition sample_log (lines : list raw_line) : list log_file :=
  [ {| path := "session.jsonl"; content := Some lines |} ].

Definition sample_library : PythonLibrary :=
  {| fromisoformat := fromisoformat_sample; py_str := py_str_sample |}.

Definition sample_cutoff : Z := timedelta_seconds t_1112 - timedelta_hours 192.

(** [b'] starts more than an hour after [b]. *)
Definition starts_before (b b' : block) : Prop :=
  instant (start_time b) + timedelta_hours 1 < instant (start_time b').

(** The sum of the running totals of a list of blocks. *)
Definition blocks_total (bs : list block) : Z :=
  foldr (λ b acc, block_total_tokens b + acc) 0 bs.

(** A line that the first loop passes over without finding a warning
    and without raising. *)
Definition quiet_line `{re : RegexLibrary} (line : raw_line) : Prop :=
  match line with
  | Decoded data =>
      system_warning data = inr None ∨
      ∃ e, system_warning data = inl e ∧ caught_in_loop e = true
  | _ => True
  end.

(** The values of the two searches on the sample messages. *)
Definition sample_regex : RegexLibrary :=
  {| search_context_low := λ c,
       inr (if String.eqb c "Context low (12% remaining)" then Some 12 else None);
     search_auto_compact := λ c,
       inr (if String.eqb c "Context left until auto-compact: 30%"
            then Some 30 else None) |}.

Definition system_line (content : string) : raw_line :=
  Decoded (JObj {[ "type" := JStr "system_message"; "content" := JStr content ]}).

Definition user_line (text : string) : raw_line :=
  Decoded (JObj
    {[ "type" := JStr "user";
       "message" := JObj {[ "content" :=
            JArr [JObj {[ "type" := JStr "text"; "text" := JStr text ]}] ]} ]}).

(** A machine whose local zone is two hours ahead of UTC. *)
Definition sample_zone : LocalZone :=
  {| local_utcoffset := λ _, timedelta_hours 2 |}.

(** * Properties of ingestion *)

Section IngestionFacts.

Context `{lib : PythonLibrary}.


(** A decoded line is either inert in every state, or it is a dict that
    contributes one fixed entry exactly when its hash is fresh. *)
Lemma ingest_line_view cutoff data :
  (∀ p st, ingest_line cutoff p st (Decoded data) = st) ∨
  (∃ d mk, data = JObj d ∧
     (∀ p, accepted_entry cutoff p (mk p)) ∧
     ∀ p st, ingest_line cutoff p st (Decoded data) =
             if already_processed (unique_hash d) st then st
             else accept_entry st (mk p) (unique_hash d)).
Proof.
  destruct data as [| | | | |d]; try (left; reflexivity).
  unfold ingest_line, process_line.
  destruct (negb (py_eq_str _ _)); [left; reflexivity|].
  destruct (negb (truthy _)); [left; reflexivity|].
  destruct (parse_timestamp _) as [e|[w|ts]]; simpl;
    [left; reflexivity | left; reflexivity |].
  destruct (instant ts <? cutoff) eqn:Hcut; [left; reflexivity|].
  destruct (py_get (dict_get d "message" (JObj ∅)) "usage" (JObj ∅))
    as [e|usage] eqn:Husage; simpl.
  { left. intros p st. by destruct (already_processed _ _). }
  destruct (negb (truthy usage)).
  { left. intros p st. by destruct (already_processed _ _). }
  destruct (py_get usage "input_tokens" (JInt 0)) as [e|input]; simpl.
  { left. intros p st. by destruct (already_processed _ _). }
  destruct (py_get usage "output_tokens" (JInt 0)) as [e|output]; simpl.
  { left. intros p st. by destruct (already_processed _ _). }
  destruct (py_eq_zero input && py_eq_zero output) eqn:Hzero.
  { left. intros p st. by destruct (already_processed _ _). }
  destruct (py_add input output) as [e|total] eqn:Hadd; simpl.
  { left. intros p st. by destruct (already_processed _ _). }
  right. eexists d, (λ p, {| file := p |}). split; [done|]. split.
  - intros p. repeat split; simpl; [|done..].
    apply Z.ltb_ge in Hcut. exact Hcut.
  - intros p st. by destruct (already_processed _ _).
Qed.

Lemma record_hash_mono h (hashes : gset string) k :
  k ∈ hashes → k ∈ record_hash h hashes.
Proof. destruct h; simpl; set_solver. Qed.

Lemma record_hash_own k (hashes : gset string) :
  k ∈ record_hash (Some k) hashes.
Proof. simpl. set_solver. Qed.

Lemma already_processed_true k st :
  k ∈ processed_hashes st → already_processed (Some k) st = true.
Proof. intros H. simpl. by apply bool_decide_eq_true. Qed.

(** Every line leaves the state alone or accepts one entry. *)
Lemma ingest_line_cases cutoff p st line :
  ingest_line cutoff p st line = st ∨
  ∃ en, accepted_entry cutoff p en ∧
        already_processed (line_key line) st = false ∧
        ingest_line cutoff p st line = accept_entry st en (line_key line).
Proof.
  destruct line as [| |data]; [by left..|].
  destruct (ingest_line_view cutoff data) as [Hinert|(d & mk & -> & Hmk & Hd)].
  - by left.
  - rewrite Hd. simpl. destruct (already_processed _ st) eqn:Hdup.
    + by left.
    + right. by exists (mk p).
Qed.

Lemma ingest_line_hashes_mono cutoff p st line k :
  k ∈ processed_hashes st → k ∈ processed_hashes (ingest_line cutoff p st line).
Proof.
  intros Hk. destruct (ingest_line_cases cutoff p st line) as [->|(en & _ & _ & ->)];
    [done|]. by apply record_hash_mono.
Qed.

Lemma ingest_lines_hashes_mono cutoff l st k :
  k ∈ processed_hashes st → k ∈ processed_hashes (ingest_lines cutoff st l).
Proof.
  revert st. induction l as [|x l IH]; intros st Hk; [done|].
  simpl. apply IH. by apply ingest_line_hashes_mono.
Qed.

(** A line whose key is already recorded is passed over. *)
Lemma ingest_line_recorded cutoff p st line k :
  line_key line = Some k → k ∈ processed_hashes st →
  ingest_line cutoff p st line = st.
Proof.
  intros Hkey Hk.
  destruct (ingest_line_cases cutoff p st line) as [->|(en & _ & Hfresh & _)];
    [done|].
  rewrite Hkey, (already_processed_true _ _ Hk) in Hfresh. done.
Qed.

(** After a line with a key has been visited, either its key is
    recorded or the line is inert in every state. *)
Lemma ingest_line_then_inert cutoff p st line k :
  line_key line = Some k →
  k ∈ processed_hashes (ingest_line cutoff p st line) ∨
  ∀ q st', ingest_line cutoff q st' line = st'.
Proof.
  intros Hkey. destruct line as [| |data]; [by right..|].
  destruct (ingest_line_view cutoff data) as [Hinert|(d & mk & -> & Hmk & Hd)].
  - by right.
  - left. rewrite Hd. simpl in Hkey. rewrite Hkey.
    destruct (already_processed _ st) eqn:Hdup.
    + simpl in Hdup. by apply bool_decide_eq_true in Hdup.
    + apply record_hash_own.
Qed.

Lemma ingest_lines_app cutoff st l1 l2 :
  ingest_lines cutoff st (l1 ++ l2) =
  ingest_lines cutoff (ingest_lines cutoff st l1) l2.
Proof. apply foldl_app. Qed.

Lemma ingest_file_lines cutoff st f :
  ingest_file cutoff st f =
  ingest_lines cutoff st
    (match content f with
     | Some lines => (λ line, (path f, line)) <$> lines
     | None => []
     end).
Proof.
  unfold ingest_file, ingest_lines.
  destruct (content f) as [lines|]; [|done].
  revert st. induction lines as [|x lines IH]; intros st; [done|].
  simpl. apply IH.
Qed.

(** The nested loops are one pass over the visited lines. *)
Lemma load_entries_visited cutoff files :
  load_entries cutoff files =
  ingest_lines cutoff ingest_init (visited_lines files).
Proof.
  unfold load_entries. generalize ingest_init.
  induction files as [|f files IH]; intros st; [done|].
  simpl. rewrite IH, ingest_file_lines.
  change (visited_lines (f :: files)) with
    ((match content f with
      | Some lines => (λ line, (path f, line)) <$> lines
      | None => []
      end) ++ visited_lines files).
  by rewrite ingest_lines_app.
Qed.

Lemma ingest_lines_entries_Forall (P : entry → Prop) cutoff l st :
  (∀ p en, accepted_entry cutoff p en → P en) →
  Forall P (all_entries st) →
  Forall P (all_entries (ingest_lines cutoff st l)).
Proof.
  intros HP. revert st. induction l as [|[p line] l IH]; intros st Hst; [done|].
  simpl. apply IH.
  destruct (ingest_line_cases cutoff p st line) as [->|(en & Hen & _ & ->)];
    [done|].
  simpl. apply Forall_app. split; [done|]. constructor; [|constructor].
  by apply (HP p).
Qed.

End IngestionFacts.

(** * Properties of block construction *)

Section BlockFacts.

Lemma sum_totals_snoc l e : sum_totals (l ++ [e]) = sum_totals l + entry_total e.
Proof.
  unfold sum_totals. induction l as [|x l IH]; simpl; [lia|]. rewrite IH. lia.
Qed.

Lemma add_entry_numeric b e :
  numeric_total e = true →
  ∃ b', add_entry b e = inr b' ∧
        entries b' = entries b ++ [e] ∧
        block_total_tokens b' = block_total_tokens b + entry_total e ∧
        start_time b' = start_time b ∧ end_time b' = end_time b ∧
        block_id b' = block_id b ∧ is_active b' = is_active b.
Proof.
  unfold numeric_total, add_entry, py_iadd, entry_total.
  destruct (as_int (total_tokens e)) as [x|]; [|done]. intros _.
  eexists. split; [reflexivity|]. simpl. done.
Qed.

Lemma block_ok_close b l : block_ok b → block_ok (close_block b l).
Proof. intros (f & r & H). exists f, r. exact H. Qed.

Lemma add_entry_inv b e b' :
  add_entry b e = inr b' → numeric_total e = true.
Proof.
  unfold numeric_total, add_entry, py_iadd.
  by destruct (as_int (total_tokens e)).
Qed.

Lemma dt_add_inv d delta d' :
  dt_add d delta = inr d' →
  in_range (wall d + delta) = true ∧
  d' = {| wall := wall d + delta; utcoffset := utcoffset d |}.
Proof.
  unfold dt_add. destruct (in_range (wall d + delta)); [|done].
  by intros [= <-].
Qed.

Lemma instant_dt_add d delta d' :
  dt_add d delta = inr d' → instant d' = instant d + delta.
Proof.
  intros H. apply dt_add_inv in H as [_ ->]. unfold instant. simpl. lia.
Qed.

(** A window is opened exactly when its end is representable. *)
Lemma new_block_cases e :
  (window_representable e = true ∧
   ∃ b, new_block e = inr b ∧
        block_id b = replace_hour (timestamp e) ∧
        start_time b = replace_hour (timestamp e) ∧
        dt_add (start_time b) session_duration = inr (end_time b) ∧
        entries b = [] ∧ block_total_tokens b = 0 ∧ is_active b = false) ∨
  (window_representable e = false ∧ new_block e = inl OverflowError).
Proof.
  unfold window_representable, new_block, dt_add.
  destruct (in_range _) eqn:Hr; [left|right]; split; try done.
  eexists. split; [reflexivity|].
  cbn [block_id start_time end_time entries block_total_tokens is_active].
  unfold dt_add. by rewrite Hr.
Qed.

Lemma block_ok_first e b0 b' :
  new_block e = inr b0 → add_entry b0 e = inr b' →
  block_ok b' ∧ entries b' = [e].
Proof.
  intros Hnew Hadd. pose proof (add_entry_inv _ _ _ Hadd) as Hnum.
  destruct (new_block_cases e) as [(_ & b & Hb & Hid0 & Hst0 & Hen0 & Hent0 & Htot0 & Hact0)
                                  |[_ Hb]];
    rewrite Hnew in Hb; [injection Hb as <-|done].
  destruct (add_entry_numeric b0 e Hnum)
    as (b2 & Hb2 & Hent & Htot & Hst & Hen & Hid & Hact).
  rewrite Hadd in Hb2. injection Hb2 as <-.
  rewrite Hent0 in Hent. split; [|done].
  exists e, []. rewrite Hent, Hst, Hen, Hid, Htot, Hact.
  repeat split; try done.
  - by rewrite Hid0, Hst0.
  - unfold sum_totals. simpl. lia.
  - repeat constructor.
Qed.

Lemma should_join_inv b e :
  should_create_new_block (Some b) e = false →
  instant (timestamp e) < instant (end_time b) ∧
  ∀ l, last (entries b) = Some l →
       instant (timestamp e) - instant (timestamp l) < timedelta_hours 2.
Proof.
  unfold should_create_new_block. intros H.
  apply orb_false_iff in H as [H1 H2]. apply Z.leb_gt in H1.
  split; [done|]. intros l Hl. rewrite Hl in H2. by apply Z.leb_gt in H2.
Qed.

Lemma block_ok_join b e b' :
  block_ok b → should_create_new_block (Some b) e = false →
  numeric_total e = true → add_entry b e = inr b' →
  block_ok b' ∧ entries b' = entries b ++ [e].
Proof.
  intros (f & r & He & Hs & Hi & Hend & Ht & Ha & Hsorted) Hjoin Hnum Hadd.
  destruct (add_entry_numeric b e Hnum)
    as (b2 & Hb2 & Hent & Htot & Hst & Hen & Hid & Hact).
  rewrite Hadd in Hb2. injection Hb2 as <-. split; [|done].
  apply should_join_inv in Hjoin as [Hlt Hgap].
  exists f, (r ++ [e]). rewrite Hent, Hst, Hen, Hid, Htot, Hact.
  repeat split; try done.
  - by rewrite He.
  - rewrite sum_totals_snoc. lia.
  - apply Sorted_snoc; [done|].
    destruct (last (entries b)) as [l|] eqn:Hl.
    + apply last_Some in Hl as [l' Hl']. rewrite Hl'.
      constructor. split; [done|]. by apply Hgap.
    + apply last_None in Hl. by rewrite Hl in He.
Qed.

(** The loop, when it returns: it has closed the blocks in order, and
    every block it closed is well formed. *)
Lemma build_loop_inv l :
  ∀ st st', build_loop st l = inr st' → open_ok st →
  ∃ bs,
    finalize (session_blocks st') (current_block st') = session_blocks st ++ bs ∧
    concat (entries <$> bs) = cur_entries st ++ l ∧
    Forall block_ok bs ∧
    Sorted split_after bs.
Proof.
  induction l as [|e l IH]; intros st st' Hrun Hok.
  - injection Hrun as <-. unfold open_ok, cur_entries in *.
    destruct (current_block st) as [b|] eqn:Hcur.
    + destruct Hok as (f & r & Hok). pose proof Hok as (He & _).
      destruct (last (entries b)) as [x|] eqn:Hlast.
      2:{ apply last_None in Hlast. by rewrite Hlast in He. }
      exists [close_block b x]. simpl. rewrite ?Hcur, ?Hlast.
      repeat split; try done; repeat constructor. by exists f, r.
    + exists []. simpl. rewrite ?Hcur.
      repeat split; try done; rewrite ?app_nil_r; try done; constructor.
  - simpl in Hrun.
    destruct (build_step st e) as [x|st1] eqn:Hstep; [done|]. simpl in Hrun.
    unfold build_step in Hstep.
    destruct (should_create_new_block (current_block st) e) eqn:Hnew;
      [|destruct (current_block st) as [b|] eqn:Hcur; [|done]].
    + (* a new block is opened *)
      assert (∃ b0 b1, new_block e = inr b0 ∧ add_entry b0 e = inr b1 ∧
                st1 = {| session_blocks := finalize (session_blocks st) (current_block st);
                         current_block := Some b1 |}) as (b0 & b1 & Hb0 & Hb1 & ->).
      { destruct (current_block st);
          (destruct (new_block e) as [|b0]; [done|]; simpl in Hstep;
           destruct (add_entry b0 e) as [|b1] eqn:Hb1; [done|];
           injection Hstep as <-; by exists b0, b1). }
      destruct (block_ok_first e b0 b1 Hb0 Hb1) as [Hok1 Hent1].
      destruct (IH _ st' Hrun Hok1) as (bs & Hfin & Hcat & Hall & Hsep).
      unfold cur_entries in Hcat. simpl in Hfin, Hcat. rewrite Hent1 in Hcat.
      unfold open_ok, cur_entries in *.
      destruct (current_block st) as [b|] eqn:Hcur.
      * destruct Hok as (f & r & Hok). pose proof Hok as (He & _).
        destruct (last (entries b)) as [x|] eqn:Hlast.
        2:{ apply last_None in Hlast. by rewrite Hlast in He. }
        exists (close_block b x :: bs). simpl in *. rewrite Hlast in Hfin.
        repeat split; try done.
        -- by rewrite Hfin, <- app_assoc.
        -- f_equal. exact Hcat.
        -- constructor; [by exists f, r | done].
        -- constructor; [done|].
           destruct bs as [|b2 bs]; [constructor|]. constructor.
           apply Forall_cons in Hall as [(f0 & r0 & He0 & _) _].
           simpl in Hcat. rewrite He0 in Hcat. injection Hcat as -> _.
           exists x, e. simpl. rewrite Hlast, He0. repeat split.
           unfold should_create_new_block in Hnew. rewrite Hlast in Hnew.
           apply orb_true_iff in Hnew as [H|H]; apply Z.leb_le in H; auto.
      * exists bs. simpl in *. repeat split; done.
    + (* the entry joins the current block *)
      destruct (add_entry b e) as [|b1] eqn:Hb1; [done|]. injection Hstep as <-.
      pose proof (add_entry_inv _ _ _ Hb1) as Hne.
      unfold open_ok in Hok. rewrite Hcur in Hok.
      destruct (block_ok_join b e b1 Hok Hnew Hne Hb1) as [Hok1 Hent1].
      destruct (IH _ st' Hrun Hok1) as (bs & Hfin & Hcat & Hall & Hsep).
      exists bs. unfold cur_entries in *. simpl in *.
      rewrite Hcur. rewrite Hent1, <- app_assoc in Hcat.
      repeat split; done.
Qed.

(** The loop returns on numeric entries whose windows are
    representable. *)
Lemma build_loop_total l :
  ∀ st, Forall (λ e, numeric_total e = true) l →
        Forall (λ e, window_representable e = true) l →
  ∃ st', build_loop st l = inr st'.
Proof.
  induction l as [|e l IH]; intros st Hnum Hrep; [by exists st|].
  apply Forall_cons in Hnum as [Hne Hnum].
  apply Forall_cons in Hrep as [Hre Hrep].
  assert (∃ st1, build_step st e = inr st1) as [st1 Hst1].
  { unfold build_step.
    destruct (new_block_cases e) as [(_ & b0 & Hb0 & _)|[Hno _]];
      [|by rewrite Hre in Hno].
    destruct (add_entry_numeric b0 e Hne) as (b1 & Hb1 & _).
    destruct (should_create_new_block (current_block st) e);
      [|destruct (current_block st) as [b|]].
    - rewrite Hb0. simpl. rewrite Hb1. simpl. by eexists.
    - destruct (add_entry_numeric b e Hne) as (b2 & Hb2 & _).
      rewrite Hb2. simpl. by eexists.
    - rewrite Hb0. simpl. rewrite Hb1. simpl. by eexists. }
  destruct (IH st1 Hnum Hrep) as [st' Hst']. exists st'.
  simpl. by rewrite Hst1.
Qed.

(** Block construction, when it returns. *)
Lemma transform_to_blocks_inv l blocks :
  transform_to_blocks l = inr blocks →
  concat (entries <$> blocks) = l ∧
  Forall block_ok blocks ∧
  Sorted split_after blocks.
Proof.
  unfold transform_to_blocks. intros H.
  destruct (build_loop build_init l) as [x|st'] eqn:Hrun; [done|].
  simpl in H. injection H as <-.
  destruct (build_loop_inv l build_init st' Hrun I) as (bs & Hfin & Hcat & Hall & Hsep).
  simpl in Hfin. by rewrite Hfin.
Qed.

(** Block construction on numeric entries with representable windows. *)
Lemma transform_to_blocks_spec l :
  Forall (λ e, numeric_total e = true) l →
  Forall (λ e, window_representable e = true) l →
  ∃ bs,
    transform_to_blocks l = inr bs ∧
    concat (entries <$> bs) = l ∧
    Forall block_ok bs ∧
    Sorted split_after bs.
Proof.
  intros Hnum Hrep.
  destruct (build_loop_total l build_init Hnum Hrep) as [st' Hrun].
  exists (finalize (session_blocks st') (current_block st')).
  assert (transform_to_blocks l
          = inr (finalize (session_blocks st') (current_block st'))) as Hrun'.
  { unfold transform_to_blocks. by rewrite Hrun. }
  split; [done|]. by apply transform_to_blocks_inv.
Qed.

(** *** Sorting *)

#[global] Instance by_instant_trans : Transitive by_instant.
Proof. unfold by_instant. intros x y z. lia. Qed.

Lemma insert_entry_perm e l : insert_entry e l ≡ₚ e :: l.
Proof.
  induction l as [|y l IH]; simpl; [done|].
  destruct (_ <=? _); [done|]. rewrite IH. apply Permutation_swap.
Qed.

Lemma sort_entries_perm l : sort_entries l ≡ₚ l.
Proof.
  induction l as [|e l IH]; simpl; [done|].
  rewrite insert_entry_perm. by constructor.
Qed.

Lemma insert_entry_sorted e l :
  Sorted by_instant l → Sorted by_instant (insert_entry e l).
Proof.
  induction 1 as [|y l Hs IH Hhd]; simpl; [repeat constructor|].
  destruct (_ <=? _) eqn:Hle.
  - apply Z.leb_le in Hle. repeat constructor; done.
  - apply Z.leb_gt in Hle. constructor; [done|].
    destruct l as [|z l]; simpl.
    + constructor. unfold by_instant. lia.
    + destruct (_ <=? _); constructor; unfold by_instant; [lia|].
      by inversion Hhd.
Qed.

Lemma sort_entries_sorted l : StronglySorted by_instant (sort_entries l).
Proof.
  apply Sorted_StronglySorted; [apply _|].
  induction l as [|e l IH]; simpl; [constructor|].
  by apply insert_entry_sorted.
Qed.

Lemma sort_entries_Forall (P : entry → Prop) l :
  Forall P l → Forall P (sort_entries l).
Proof. intros H. by rewrite sort_entries_perm. Qed.

Lemma sort_entries_nil l : sort_entries l = [] → l = [].
Proof.
  intros H. apply Permutation_nil_r. by rewrite <- H, sort_entries_perm.
Qed.

(** *** Time bounds inside a block *)

Lemma replace_hour_bounds d :
  instant (replace_hour d) ≤ instant d < instant (replace_hour d) + timedelta_hours 1.
Proof.
  unfold instant, replace_hour, timedelta_hours. simpl.
  pose proof (Z.mod_pos_bound (wall d) 3600000000). lia.
Qed.


Lemma joined_tail_before_end E x l :
  Sorted (joined E) (x :: l) → Forall (λ y, instant (timestamp y) < E) l.
Proof.
  revert x. induction l as [|y l IH]; intros x Hs; [constructor|].
  apply Sorted_inv in Hs as [Hs Hhd]. apply HdRel_inv in Hhd as [Hlt _].
  constructor; [done|]. by apply (IH y).
Qed.

Lemma elem_of_concat {A} (x : A) (l : list A) (ls : list (list A)) :
  x ∈ l → l ∈ ls → x ∈ concat ls.
Proof.
  intros Hx. induction 1 as [|l' ls Hl IH]; simpl; apply elem_of_app; auto.
Qed.

Lemma concat_StronglySorted {A} (R : relation A) (ls : list (list A)) :
  StronglySorted R (concat ls) → Forall (StronglySorted R) ls.
Proof.
  induction ls as [|l ls IH]; simpl; intros H; [constructor|].
  apply StronglySorted_app in H as (_ & H1 & H2).
  constructor; [exact H1 | by apply IH].
Qed.

(** Every entry of a well-formed block with ascending entries lies in the
    block's window. *)
Lemma block_window b :
  block_ok b → StronglySorted by_instant (entries b) →
  Forall (λ e, instant (start_time b) ≤ instant (timestamp e) ∧
               instant (timestamp e) < instant (end_time b)) (entries b).
Proof.
  intros (f & r & He & Hs & _ & Hend & _ & _ & Hj) Hsorted.
  rewrite He in *. apply StronglySorted_inv in Hsorted as [_ Hge].
  apply joined_tail_before_end in Hj.
  pose proof (replace_hour_bounds (timestamp f)) as Hb.
  rewrite <- Hs in Hb.
  assert (instant (end_time b) = instant (start_time b) + timedelta_hours 5)
    as Hend' by (by apply instant_dt_add).
  unfold timedelta_hours in *.
  constructor; [lia|].
  apply Forall_forall. intros y Hy.
  rewrite Forall_forall in Hge. rewrite Forall_forall in Hj.
  specialize (Hge y Hy). specialize (Hj y Hy). unfold by_instant in Hge. lia.
Qed.

(** *** The marking pass and the selection *)

Lemma mark_block_active now b :
  is_active (mark_block now b) = qualifies now b || is_active b.
Proof. unfold mark_block. by destruct (qualifies now b). Qed.

Lemma mark_block_fields now b :
  entries (mark_block now b) = entries b ∧
  start_time (mark_block now b) = start_time b ∧
  end_time (mark_block now b) = end_time b ∧
  block_total_tokens (mark_block now b) = block_total_tokens b ∧
  block_id (mark_block now b) = block_id b.
Proof. unfold mark_block. by destruct (qualifies now b). Qed.

Lemma qualifies_mark now b : qualifies now (mark_block now b) = qualifies now b.
Proof. unfold mark_block. by destruct (qualifies now b) eqn:H. Qed.

Lemma max_from_spec l : ∀ best,
  max_from best l ∈ best :: l ∧
  ∀ b, b ∈ best :: l →
       instant (start_time b) ≤ instant (start_time (max_from best l)).
Proof.
  induction l as [|x l IH]; intros best; simpl.
  - split; [set_solver|]. intros b Hb. apply list_elem_of_singleton in Hb as ->. lia.
  - destruct (IH (if instant (start_time best) <? instant (start_time x)
                  then x else best)) as [Hin Hmax].
    split.
    + destruct (_ <? _); set_solver.
    + intros b Hb.
      assert (instant (start_time b) ≤
              instant (start_time (if instant (start_time best) <? instant (start_time x)
                                   then x else best)) ∨ b ∈ l) as [Hle|Hbl].
      { destruct (_ <? _) eqn:Hlt;
          [apply Z.ltb_lt in Hlt|apply Z.ltb_ge in Hlt];
          apply elem_of_cons in Hb as [->|Hb];
          try (apply elem_of_cons in Hb as [->|Hb]); auto; left; lia. }
      * etrans; [exact Hle|]. apply Hmax. set_solver.
      * apply Hmax. set_solver.
Qed.

Lemma max_start_spec l :
  match max_start l with
  | None => l = []
  | Some m => m ∈ l ∧ ∀ b, b ∈ l → instant (start_time b) ≤ instant (start_time m)
  end.
Proof. destruct l as [|x l]; simpl; [done|]. apply max_from_spec. Qed.

End BlockFacts.

(** * Block construction: idle gaps and the window partition *)

Section BuildBlocks.

Lemma Sorted_middle {A} (R : relation A) l1 x y l2 :
  Sorted R (l1 ++ x :: y :: l2) → R x y.
Proof.
  induction l1 as [|z l1 IH]; simpl; intros H; apply Sorted_inv in H as [H Hhd].
  - by apply HdRel_inv in Hhd.
  - by apply IH.
Qed.

(** An entry that follows its predecessor by two hours or more is the
    first entry of a block. *)
Lemma gap_starts_block bs : ∀ l1 x y l2,
  Forall block_ok bs →
  concat (entries <$> bs) = l1 ++ x :: y :: l2 →
  timedelta_hours 2 ≤ instant (timestamp y) - instant (timestamp x) →
  ∃ bs1 b bs2,
    bs = bs1 ++ b :: bs2 ∧
    concat (entries <$> bs1) = l1 ++ [x] ∧
    head (entries b) = Some y.
Proof.
  induction bs as [|b bs IH]; intros l1 x y l2 Hok Hcat Hgap.
  { by destruct l1. }
  apply Forall_cons in Hok as [Hb Hok]. simpl in Hcat.
  assert (entries b = l1 ++ [x] ∧ concat (entries <$> bs) = y :: l2 ∨
          ∃ k, l1 = entries b ++ k ∧
               concat (entries <$> bs) = k ++ x :: y :: l2) as [[He Hrest]|(k & -> & Hrest)].
  { change (l1 ++ x :: y :: l2) with (l1 ++ [x] ++ y :: l2) in Hcat.
    rewrite app_assoc in Hcat.
    apply app_eq_inv in Hcat as [(k & Hk1 & Hk2)|(k & Hk1 & Hk2)].
    - (* the block reaches past [x] *)
      destruct k as [|z k].
      + left. rewrite app_nil_r in Hk1. simpl in Hk2. done.
      + exfalso. simpl in Hk2. injection Hk2 as <- _.
        destruct Hb as (f & r & _ & _ & _ & _ & _ & _ & Hj).
        rewrite Hk1, <- app_assoc in Hj. simpl in Hj.
        apply Sorted_middle in Hj as [_ Hlt]. lia.
    - (* the block ends inside [l1 ++ [x]] *)
      destruct k as [|z k _] using rev_ind.
      + left. rewrite app_nil_r in Hk1. simpl in Hk2. done.
      + right. rewrite app_assoc in Hk1. apply app_inj_tail in Hk1 as [-> ->].
        exists k. split; [done|].
        etrans; [exact Hk2|]. by rewrite <- app_assoc. }
  - exists [b], (default b (head bs)), (tail bs).
    destruct bs as [|b' bs]; [done|]. simpl. rewrite app_nil_r.
    repeat split; [done|].
    apply Forall_cons in Hok as [(f & r & He' & _) _].
    simpl in Hrest. rewrite He' in Hrest |- *. by injection Hrest as ->.
  - destruct (IH k x y l2 Hok Hrest Hgap) as (bs1 & b0 & bs2 & -> & Hc & Hh).
    exists (b :: bs1), b0, bs2. repeat split; [|done].
    rewrite fmap_cons. simpl. by rewrite Hc, <- app_assoc.
Qed.

(** C7, as stated, fails at the end of the year 9999: two events three
    hours apart, at 17:30 and 20:30 UTC on 9999-12-31, do not give two
    blocks; the window of the second would end after the last datetime
    and the loop raises [OverflowError]. *)
Lemma idle_gap_overflow :
  numeric_total (sample_entry 253402277400 500) = true ∧
  numeric_total (sample_entry (253402277400 + 10800) 500) = true ∧
  instant (timestamp (sample_entry (253402277400 + 10800) 500)) =
    instant (timestamp (sample_entry 253402277400 500)) + timedelta_hours 3 ∧
  transform_to_blocks
    [sample_entry 253402277400 500; sample_entry (253402277400 + 10800) 500]
  = inl OverflowError.
Proof. vm_compute. done. Qed.

(** C7, amended.  Two events three hours apart whose windows are
    representable give two blocks, one per event, although the second
    event lies before the end of the first block; and in any state of
    the loop an entry that comes two hours or more after the last entry
    of the current block closes that block and opens a new one when its
    window is representable, and raises [OverflowError] when it is
    not. *)
Theorem idle_gap_split :
  (∀ e0 e1,
     numeric_total e0 = true → numeric_total e1 = true →
     window_representable e0 = true → window_representable e1 = true →
     instant (timestamp e1) = instant (timestamp e0) + timedelta_hours 3 →
     ∃ b0 b1,
       transform_to_blocks [e0; e1] = inr [b0; b1] ∧
       entries b0 = [e0] ∧ entries b1 = [e1] ∧
       instant (timestamp e1) < instant (end_time b0)) ∧
  (∀ st b l e,
     current_block st = Some b → last (entries b) = Some l →
     numeric_total e = true →
     timedelta_hours 2 ≤ instant (timestamp e) - instant (timestamp l) →
     if window_representable e
     then ∃ b',
       build_step st e =
         inr {| session_blocks := session_blocks st ++ [close_block b l];
                current_block := Some b' |} ∧
       entries b' = [e] ∧
       start_time b' = replace_hour (timestamp e)
     else build_step st e = inl OverflowError).
Proof.
  assert (∀ st b l e,
     current_block st = Some b → last (entries b) = Some l →
     numeric_total e = true →
     timedelta_hours 2 ≤ instant (timestamp e) - instant (timestamp l) →
     if window_representable e
     then ∃ b',
       build_step st e =
         inr {| session_blocks := session_blocks st ++ [close_block b l];
                current_block := Some b' |} ∧
       entries b' = [e] ∧
       start_time b' = replace_hour (timestamp e)
     else build_step st e = inl OverflowError) as Hstep.
  { intros st b l e Hcur Hlast Hnum Hgap.
    unfold build_step. rewrite Hcur.
    unfold should_create_new_block. rewrite Hlast.
    apply Z.leb_le in Hgap. rewrite Hgap, orb_true_r.
    destruct (new_block_cases e)
      as [(-> & b0 & Hb0 & _ & Hst0 & _ & Hent0 & _)|[-> Hb0]]; rewrite Hb0;
      [|done].
    destruct (add_entry_numeric b0 e Hnum) as (b' & Hadd & Hent & _ & Hst & _).
    exists b'. simpl. rewrite Hadd. simpl. rewrite Hlast.
    by rewrite Hent, Hent0, Hst, Hst0. }
  split; [|exact Hstep].
  intros e0 e1 Hn0 Hn1 Hr0 Hr1 Ht.
  destruct (new_block_cases e0)
    as [(_ & c0 & Hc0 & _ & Hcst0 & Hcend0 & Hcent0 & _)|[Hno _]];
    [|by rewrite Hr0 in Hno].
  destruct (add_entry_numeric c0 e0 Hn0)
    as (b0 & Hadd0 & Hent0 & _ & Hst0 & Hend0 & _).
  rewrite Hcent0 in Hent0. simpl in Hent0.
  pose proof (Hstep {| session_blocks := []; current_block := Some b0 |} b0 e0 e1)
    as Hs1.
  rewrite Hr1 in Hs1.
  destruct Hs1 as (b1 & Hs1 & Hent1 & _); simpl; try done.
  { by rewrite Hent0. }
  { unfold timedelta_hours in *. lia. }
  exists (close_block b0 e0), (close_block b1 e1).
  unfold transform_to_blocks. simpl. unfold build_step at 1. simpl.
  rewrite Hc0. simpl. rewrite Hadd0. simpl. rewrite Hs1. simpl.
  rewrite Hent0, Hent1. simpl.
  repeat split; try done.
  rewrite Hend0, (instant_dt_add _ _ _ Hcend0), Hcst0.
  pose proof (replace_hour_bounds (timestamp e0)).
  unfold session_duration, timedelta_hours in *. lia.
Qed.

(** C4, as stated, fails at the end of the year 9999: of two events in
    ascending order, at 10:15 on 2024-01-01 and at 22:30 UTC on
    9999-12-31, none is placed in a block; the window of the second
    would end after the last datetime and the loop raises
    [OverflowError]. *)
Lemma window_partition_overflow :
  Sorted by_instant [sample_entry t_1015 500; sample_entry 253402295400 500] ∧
  Forall (λ e, numeric_total e = true)
    [sample_entry t_1015 500; sample_entry 253402295400 500] ∧
  transform_to_blocks [sample_entry t_1015 500; sample_entry 253402295400 500]
  = inl OverflowError.
Proof.
  split; [|split]; [| |by vm_compute].
  - repeat constructor; unfold by_instant; vm_compute; discriminate.
  - repeat constructor.
Qed.

(** C4, amended.  On events in ascending order of timestamp, whenever
    the loop returns, the entry lists of its blocks, taken in order, are
    exactly the events: every event is in one block and none is lost; no
    block is empty, every entry lies in [start_time, end_time) of its
    block, and an event that comes two hours or more after its
    predecessor is the first entry of a block.  The loop returns when the
    totals are numbers and every event's window is representable. *)
Theorem window_partition (events : list entry) :
  Sorted by_instant events →
  (∀ blocks,
     transform_to_blocks events = inr blocks →
     concat (entries <$> blocks) = events ∧
     Forall (λ b, entries b ≠ [] ∧
                  Forall (λ e, instant (start_time b) ≤ instant (timestamp e) ∧
                               instant (timestamp e) < instant (end_time b))
                         (entries b)) blocks ∧
     ∀ l1 x y l2,
       events = l1 ++ x :: y :: l2 →
       timedelta_hours 2 ≤ instant (timestamp y) - instant (timestamp x) →
       ∃ bs1 b bs2,
         blocks = bs1 ++ b :: bs2 ∧
         concat (entries <$> bs1) = l1 ++ [x] ∧
         head (entries b) = Some y) ∧
  (Forall (λ e, numeric_total e = true) events →
   Forall (λ e, window_representable e = true) events →
   ∃ blocks, transform_to_blocks events = inr blocks).
Proof.
  intros Hsorted. split.
  - intros bs Hrun.
    destruct (transform_to_blocks_inv events bs Hrun) as (Hcat & Hok & _).
    repeat split; [done| |].
    + apply Sorted_StronglySorted in Hsorted; [|apply _].
      rewrite <- Hcat in Hsorted. apply concat_StronglySorted in Hsorted.
      rewrite Forall_fmap in Hsorted.
      apply Forall_forall. intros b Hb.
      rewrite Forall_forall in Hok. rewrite Forall_forall in Hsorted.
      specialize (Hok b Hb). specialize (Hsorted b Hb). simpl in Hsorted.
      split; [|by apply block_window].
      destruct Hok as (f & r & -> & _). done.
    + intros l1 x y l2 -> Hgap. by apply (gap_starts_block bs l1 x y l2).
  - intros Hnum Hrep.
    destruct (transform_to_blocks_spec events Hnum Hrep) as (bs & Hrun & _).
    by exists bs.
Qed.

Lemma window_partition_witness :
  ∃ blocks,
    transform_to_blocks
      [sample_entry t_1015 500; sample_entry (t_1015 + 1800) 500] = inr blocks ∧
    concat (entries <$> blocks) =
      [sample_entry t_1015 500; sample_entry (t_1015 + 1800) 500].
Proof.
  destruct (window_partition
              [sample_entry t_1015 500; sample_entry (t_1015 + 1800) 500])
    as [Hinv Hruns].
  - repeat constructor; unfold by_instant; vm_compute; discriminate.
  - destruct Hruns as [bs Hrun]; [repeat constructor..|].
    exists bs. split; [exact Hrun|]. by apply Hinv.
Defined.

Lemma idle_gap_split_witness :
  ∃ b0 b1,
    transform_to_blocks
      [sample_entry t_1015 500; sample_entry (t_1015 + 10800) 500] = inr [b0; b1].
Proof.
  destruct (proj1 idle_gap_split (sample_entry t_1015 500)
              (sample_entry (t_1015 + 10800) 500))
    as (b0 & b1 & H & _); [reflexivity..|].
  by exists b0, b1.
Defined.

End BuildBlocks.

(** * The [is_active] pass *)

Section ActiveMarking.

Lemma transform_inactive events blocks :
  transform_to_blocks events = inr blocks →
  Forall block_ok blocks ∧ Sorted split_after blocks ∧
  concat (entries <$> blocks) = events.
Proof.
  intros Hrun.
  by destruct (transform_to_blocks_inv events blocks Hrun) as (Hcat & Hok & Hsep).
Qed.

Lemma marked_blocks_numeric now events :
  Forall (λ e, numeric_total e = true) events →
  Forall (λ e, window_representable e = true) events →
  ∃ blocks,
    transform_to_blocks (sort_entries events) = inr blocks ∧
    marked_blocks now events = inr (mark_active now blocks) ∧
    Forall block_ok blocks ∧ Sorted split_after blocks ∧
    concat (entries <$> blocks) = sort_entries events.
Proof.
  intros Hnum Hrep. apply (sort_entries_Forall _ events) in Hnum.
  apply (sort_entries_Forall _ events) in Hrep.
  destruct (transform_to_blocks_spec _ Hnum Hrep) as (bs & Hrun & Hcat & Hok & Hsep).
  exists bs. unfold marked_blocks. rewrite Hrun. done.
Qed.

Lemma marked_blocks_inv now events blocks :
  marked_blocks now events = inr blocks →
  ∃ bs,
    blocks = mark_active now bs ∧
    Forall block_ok bs ∧ Sorted split_after bs ∧
    concat (entries <$> bs) = sort_entries events.
Proof.
  unfold marked_blocks. intros Hrun.
  destruct (transform_to_blocks (sort_entries events)) as [x|bs] eqn:Hbs; [done|].
  injection Hrun as <-.
  destruct (transform_inactive _ bs Hbs)
    as (Hok & Hsep & Hcat).
  by exists bs.
Qed.

Lemma qualifies_spec now b :
  qualifies now b = true ↔
  now < instant (end_time b) ∧ (3 ≤ length (entries b))%nat ∧
  ∃ l, last (entries b) = Some l ∧
       now - instant (timestamp l) ≤ timedelta_seconds 1800.
Proof.
  unfold qualifies. rewrite !andb_true_iff, Z.ltb_lt, Nat.leb_le.
  destruct (last (entries b)) as [l|].
  - rewrite Z.leb_le. split.
    + intros [[H1 H2] H3]. eauto.
    + intros (H1 & H2 & l' & [= <-] & H3). done.
  - split; [intros [_ ?]; done|]. intros (_ & _ & l & ? & _). done.
Qed.

Lemma marked_flag now b :
  block_ok b → is_active (mark_block now b) = qualifies now b.
Proof.
  intros (f & r & _ & _ & _ & _ & _ & Hact & _).
  by rewrite mark_block_active, Hact, orb_false_r.
Qed.

(** With every event between thirty minutes ago and now, the loop
    builds at most one block. *)
Lemma recent_events_one_block now blocks :
  Forall block_ok blocks → Sorted split_after blocks →
  Forall (λ e, now - timedelta_seconds 1800 ≤ instant (timestamp e) ∧
               instant (timestamp e) ≤ now) (concat (entries <$> blocks)) →
  blocks = [] ∨ ∃ b, blocks = [b].
Proof.
  intros Hok Hsep Hwin.
  destruct blocks as [|b0 [|b1 bs]]; [by left | right; by exists b0 | exfalso].
  apply Sorted_inv in Hsep as [_ Hhd]. apply HdRel_inv in Hhd.
  destruct Hhd as (l & f & Hl & Hf & Hsplit).
  apply Forall_cons in Hok as [(f0 & r0 & He0 & Hs0 & _ & Hend0 & _) _].
  rewrite !fmap_cons in Hwin. simpl in Hwin.
  rewrite !Forall_app in Hwin. destruct Hwin as (Hw0 & Hw1 & _).
  rewrite Forall_forall in Hw0. rewrite Forall_forall in Hw1.
  assert (l ∈ entries b0) as Hlin by by apply last_Some_elem_of.
  assert (f ∈ entries b1) as Hfin.
  { destruct (entries b1); [done|]. injection Hf as ->. set_solver. }
  assert (f0 ∈ entries b0) as Hf0in by (rewrite He0; set_solver).
  specialize (Hw0 _ Hlin) as Hwl. specialize (Hw0 _ Hf0in).
  specialize (Hw1 _ Hfin).
  pose proof (replace_hour_bounds (timestamp f0)) as Hb. rewrite <- Hs0 in Hb.
  assert (instant (end_time b0) = instant (start_time b0) + timedelta_hours 5)
    as Hend' by (by apply instant_dt_add).
  unfold timedelta_hours, timedelta_seconds in *. lia.
Qed.

(** C5, as stated, fails: an entry later than now passes the recency
    test.  Evaluated at 11:12, the log [skewed_log] has a block that is
    flagged active although its most recent entry is more than thirty
    minutes away from now, three hours after it. *)
Lemma future_entry_marks_active :
  ∃ blocks b l,
    marked_blocks (timedelta_seconds t_1112) skewed_log = inr blocks ∧
    b ∈ blocks ∧ is_active b = true ∧
    last (entries b) = Some l ∧
    timedelta_seconds 1800 < instant (timestamp l) - timedelta_seconds t_1112.
Proof.
  eexists _, _, _. split; [vm_compute; reflexivity|].
  split; [apply list_elem_of_further, list_elem_of_here|].
  split; [reflexivity|]. split; [reflexivity|]. reflexivity.
Qed.

(** C5, amended.  After the marking pass a block is flagged active
    exactly when its end lies after now, it has at least three entries,
    and its most recent entry is no earlier than thirty minutes before
    now (an entry later than now passes).  In particular, when all events
    lie in the last thirty minutes and their windows are representable
    they form one block, which is active exactly when there are at least
    three of them: two events leave it inactive, a third makes it
    active. *)
Theorem active_marking (now : Z) :
  (∀ events blocks,
     marked_blocks now events = inr blocks →
     ∀ b, b ∈ blocks →
       (is_active b = true ↔
        now < instant (end_time b) ∧
        (3 ≤ length (entries b))%nat ∧
        ∃ l, last (entries b) = Some l ∧
             now - instant (timestamp l) ≤ timedelta_seconds 1800)) ∧
  (∀ events,
     events ≠ [] →
     Forall (λ e, numeric_total e = true) events →
     Forall (λ e, window_representable e = true) events →
     Forall (λ e, now - timedelta_seconds 1800 ≤ instant (timestamp e) ∧
                  instant (timestamp e) ≤ now) events →
     ∃ b,
       marked_blocks now events = inr [b] ∧
       entries b = sort_entries events ∧
       (is_active b = true ↔ (3 ≤ length events)%nat)).
Proof.
  split.
  - intros events blocks Hrun.
    destruct (marked_blocks_inv now events blocks Hrun) as (bs & -> & Hok & _ & _).
    intros b Hb. apply list_elem_of_fmap in Hb as (b0 & -> & Hb0).
    rewrite Forall_forall in Hok. specialize (Hok b0 Hb0).
    rewrite (marked_flag now b0 Hok).
    destruct (mark_block_fields now b0) as (-> & _ & -> & _).
    apply qualifies_spec.
  - intros events Hne Hnum Hrep Hwin.
    destruct (marked_blocks_numeric now events Hnum Hrep)
      as (bs & _ & Hmarked & Hok & Hsep & Hcat).
    assert (Forall (λ e, now - timedelta_seconds 1800 ≤ instant (timestamp e) ∧
                         instant (timestamp e) ≤ now) (sort_entries events))
      as Hwin' by by apply sort_entries_Forall.
    destruct (recent_events_one_block now bs Hok Hsep) as [->|[b0 ->]].
    { by rewrite Hcat. }
    { simpl in Hcat. symmetry in Hcat. by apply sort_entries_nil in Hcat. }
    simpl in Hcat. rewrite app_nil_r in Hcat.
    apply Forall_cons in Hok as [Hok0 _].
    exists (mark_block now b0). split; [done|].
    destruct (mark_block_fields now b0) as (-> & _).
    split; [done|].
    rewrite (marked_flag now b0 Hok0), qualifies_spec, Hcat.
    rewrite (Permutation_length (sort_entries_perm events)).
    split; [tauto|]. intros Hlen.
    destruct Hok0 as (f0 & r0 & He0 & Hs0 & _ & Hend0 & _).
    rewrite Hcat in He0.
    pose proof (replace_hour_bounds (timestamp f0)) as Hb. rewrite <- Hs0 in Hb.
    assert (instant (end_time b0) = instant (start_time b0) + timedelta_hours 5)
      as Hend' by (by apply instant_dt_add).
    rewrite Forall_forall in Hwin'.
    assert (f0 ∈ sort_entries events) as Hf0 by (rewrite He0; set_solver).
    apply Hwin' in Hf0.
    split; [unfold timedelta_hours, timedelta_seconds in *; lia|].
    split; [done|].
    destruct (last (sort_entries events)) as [l|] eqn:Hl.
    + exists l. split; [done|]. apply last_Some_elem_of in Hl.
      apply Hwin' in Hl. lia.
    + apply last_None in Hl. by rewrite Hl in He0.
Qed.

Lemma active_marking_witness :
  ∃ b, marked_blocks (timedelta_seconds t_1112)
         [sample_entry (t_1112 - 600) 500; sample_entry (t_1112 - 300) 500;
          sample_entry (t_1112 - 120) 500] = inr [b] ∧
       is_active b = true.
Proof.
  destruct (proj2 (active_marking (timedelta_seconds t_1112))
              [sample_entry (t_1112 - 600) 500; sample_entry (t_1112 - 300) 500;
               sample_entry (t_1112 - 120) 500])
    as (b & Hrun & _ & Hact).
  - discriminate.
  - repeat constructor.
  - repeat constructor.
  - repeat constructor; vm_compute; discriminate.
  - exists b. split; [exact Hrun|]. apply Hact. simpl. lia.
Defined.

(** With no event later than now, only the last block can be flagged. *)
Lemma at_most_last_active now blocks :
  Forall block_ok blocks → Sorted split_after blocks →
  Forall (λ e, instant (timestamp e) ≤ now) (concat (entries <$> blocks)) →
  (length (filter (λ b, is_active b = true) (mark_active now blocks)) ≤ 1)%nat.
Proof.
  induction blocks as [|b0 bs IH]; intros Hok Hsep Hle; [simpl; lia|].
  apply Forall_cons in Hok as [Hok0 Hok].
  apply Sorted_inv in Hsep as [Hsep Hhd].
  rewrite fmap_cons in Hle. simpl in Hle. apply Forall_app in Hle as [Hle0 Hle].
  destruct bs as [|b1 bs].
  { unfold mark_active. simpl. rewrite filter_cons.
    destruct (decide _); simpl; lia. }
  specialize (IH Hok Hsep Hle).
  assert (qualifies now b0 = false) as Hq.
  { apply HdRel_inv in Hhd. destruct Hhd as (l & f & Hl & Hf & Hsplit).
    assert (f ∈ concat (entries <$> b1 :: bs)) as Hfin.
    { rewrite fmap_cons. simpl. destruct (entries b1); [done|].
      injection Hf as ->. set_solver. }
    rewrite Forall_forall in Hle. apply Hle in Hfin.
    unfold qualifies. rewrite Hl.
    destruct Hsplit as [Hend|Hgap].
    - assert ((now <? instant (end_time b0)) = false) as -> by (apply Z.ltb_ge; lia).
      done.
    - assert ((now - instant (timestamp l) <=? timedelta_seconds 1800) = false) as ->.
      { apply Z.leb_gt. unfold timedelta_hours, timedelta_seconds in *. lia. }
      by rewrite andb_false_r. }
  unfold mark_active in *. rewrite fmap_cons, filter_cons.
  rewrite (marked_flag now b0 Hok0), Hq.
  destruct (decide _); [done|]. exact IH.
Qed.

(** C3, as stated, fails: evaluated at 11:12 the log [skewed_log] has two
    blocks and both are flagged active. *)
Lemma two_active_blocks :
  ∃ b0 b1,
    marked_blocks (timedelta_seconds t_1112) skewed_log = inr [b0; b1] ∧
    is_active b0 = true ∧ is_active b1 = true.
Proof. eexists _, _. vm_compute. repeat split. Qed.

(** C3, amended.  When no event of the log is later than now, at most
    one block of the list is flagged active after the marking pass; the
    list is built whenever the events' totals are numbers and their
    windows are representable. *)
Theorem at_most_one_active (now : Z) (events : list entry) :
  Forall (λ e, instant (timestamp e) ≤ now) events →
  (∀ blocks,
     marked_blocks now events = inr blocks →
     (length (filter (λ b, is_active b = true) blocks) ≤ 1)%nat) ∧
  (Forall (λ e, numeric_total e = true) events →
   Forall (λ e, window_representable e = true) events →
   ∃ blocks, marked_blocks now events = inr blocks).
Proof.
  intros Hle. split.
  - intros blocks Hrun.
    destruct (marked_blocks_inv now events blocks Hrun)
      as (bs & -> & Hok & Hsep & Hcat).
    apply at_most_last_active; [done..|].
    rewrite Hcat. by apply sort_entries_Forall.
  - intros Hnum Hrep.
    destruct (marked_blocks_numeric now events Hnum Hrep) as (bs & _ & Hmarked & _).
    by exists (mark_active now bs).
Qed.

Lemma at_most_one_active_witness :
  ∃ blocks,
    marked_blocks (timedelta_seconds t_1112)
      [sample_entry t_1015 500; sample_entry (t_1015 + 1800) 500;
       sample_entry (t_1112 - 120) 500] = inr blocks ∧
    (length (filter (λ b, is_active b = true) blocks) ≤ 1)%nat.
Proof.
  destruct (at_most_one_active (timedelta_seconds t_1112)
              [sample_entry t_1015 500; sample_entry (t_1015 + 1800) 500;
               sample_entry (t_1112 - 120) 500]) as [Hone Hbuilt].
  - repeat constructor; vm_compute; discriminate.
  - destruct Hbuilt as [blocks Hrun]; [repeat constructor..|].
    exists blocks. split; [exact Hrun|]. by apply Hone.
Defined.

End ActiveMarking.

(** * Selection of the reported block *)

Section Selection.

Context `{zone : LocalZone}.

Lemma cost_percent_of_spec total :
  (cost_percent_of total * inject_Z 88000 == inject_Z (100 * total))%Q.
Proof.
  unfold cost_percent_of. rewrite inject_Z_mult. field.
Qed.

Lemma cost_percent_uncapped total :
  88000 < total → (inject_Z 100 < cost_percent_of total)%Q.
Proof.
  intros H. unfold cost_percent_of, Qlt, Qdiv, Qmult, Qinv, inject_Z. simpl. lia.
Qed.

(** The active branch builds its dict exactly for a reportable block. *)
Lemma active_report_cases blocks b :
  active_report blocks b =
    if reportable b
    then inr (ActiveSession (end_time b) (cost_percent_of (block_total_tokens b))
                (block_total_tokens b) (block_id b) (length blocks))
    else inl OverflowError.
Proof.
  unfold active_report, reportable, astimezone, cost_percent.
  destruct (in_range (instant (end_time b))); [|done].
  destruct (in_range (instant (end_time b) + _)); [|done].
  by destruct (true_divide_overflows (block_total_tokens b)).
Qed.

(** C6, as stated, fails: three events in the last minutes before
    11:12, one of them with a total of [10 ^ 320] tokens, form a block
    that is flagged active, and yet the selection does not return it as
    the active session; the quotient of its total by 88000 does not fit
    a float, the division raises [OverflowError] and the aggregator
    returns no data. *)
Lemma active_block_not_reported :
  ∃ b,
    marked_blocks (timedelta_seconds t_1112)
      [sample_entry (t_1112 - 600) 500; sample_entry (t_1112 - 300) (10 ^ 320);
       sample_entry (t_1112 - 120) 500] = inr [b] ∧
    is_active b = true ∧
    select (zone := sample_zone) [b] = inl OverflowError ∧
    analyze (zone := sample_zone) (timedelta_seconds t_1112)
      [sample_entry (t_1112 - 600) 500; sample_entry (t_1112 - 300) (10 ^ 320);
       sample_entry (t_1112 - 120) 500] = inl OverflowError.
Proof.
  eexists. split; [vm_compute; reflexivity|].
  split; [reflexivity|]. split; vm_compute; reflexivity.
Qed.

(** C6, amended.  If some block is flagged active, the selection takes
    the flagged block with the latest start; it reports it as the active
    session when the block is reportable, and raises [OverflowError]
    otherwise.  If none is flagged and the list is not empty, the block
    with the latest start is reported as expired, with its total; if the
    list is empty, there is no data. *)
Theorem select_outcomes (blocks : list block) :
  match filter (λ b, is_active b = true) blocks, blocks with
  | _ :: _, _ =>
      ∃ b, b ∈ blocks ∧ is_active b = true ∧
           (∀ b', b' ∈ blocks → is_active b' = true →
                  instant (start_time b') ≤ instant (start_time b)) ∧
           select blocks =
             if reportable b
             then inr (ActiveSession (end_time b)
                         (cost_percent_of (block_total_tokens b))
                         (block_total_tokens b) (block_id b) (length blocks))
             else inl OverflowError
  | [], _ :: _ =>
      ∃ b, b ∈ blocks ∧
           (∀ b', b' ∈ blocks →
                  instant (start_time b') ≤ instant (start_time b)) ∧
           select blocks =
             inr (ExpiredSession (inject_Z 100) (block_total_tokens b))
  | [], [] => select blocks = inr NoData
  end.
Proof.
  unfold select.
  pose proof (max_start_spec (filter (λ b, is_active b = true) blocks)) as Hact.
  pose proof (max_start_spec blocks) as Hall.
  destruct (filter (λ b, is_active b = true) blocks) as [|a act] eqn:Hf.
  - simpl. destruct blocks as [|b0 bs]; [done|].
    simpl in *. destruct Hall as [Hin Hmax].
    exists (max_from b0 bs). done.
  - destruct (max_start (a :: act)) as [m|] eqn:Hm; [|done].
    destruct Hact as [Hin Hmax]. rewrite <- Hf in Hin, Hmax.
    apply list_elem_of_filter in Hin as [Hma Hmb].
    exists m. repeat split; try done.
    + intros b' Hb' Hact'. apply Hmax. by apply list_elem_of_filter.
    + apply active_report_cases.
Qed.

(** C1, as stated, fails for the expired fallback: one event of 500
    tokens evaluated ten hours later is reported with 100 percent, which
    is not 500 / 88000 as a percentage. *)
Lemma expired_ratio_is_constant :
  analyze (zone := sample_zone) (timedelta_seconds (t_1015 + 36000))
    [sample_entry t_1015 500] =
    inr (ExpiredSession (inject_Z 100) 500) ∧
  ¬ (inject_Z 100 == cost_percent_of 500)%Q.
Proof. split; [reflexivity|]. vm_compute. discriminate. Qed.

(** C1, amended.  For the active block the reported percentage is the
    block's total divided by 88000, times 100, without a cap: above 88000
    tokens it exceeds 100.  For the expired fallback block the reported
    percentage is the constant 100 and only the token total is the
    block's. *)
Theorem usage_ratio_reported (blocks : list block) :
  match select blocks with
  | inr (ActiveSession _ percent tokens _ _) =>
      (∃ b, b ∈ blocks ∧ is_active b = true ∧ tokens = block_total_tokens b) ∧
      (percent * inject_Z 88000 == inject_Z (100 * tokens))%Q ∧
      (88000 < tokens → (inject_Z 100 < percent)%Q)
  | inr (ExpiredSession percent tokens) =>
      percent = inject_Z 100 ∧
      ∃ b, b ∈ blocks ∧ tokens = block_total_tokens b
  | inr NoData | inl _ => True
  end.
Proof.
  unfold select.
  pose proof (max_start_spec (filter (λ b, is_active b = true) blocks)) as Hact.
  pose proof (max_start_spec blocks) as Hall.
  destruct (max_start (filter (λ b, is_active b = true) blocks)) as [m|].
  - destruct Hact as [Hin _]. apply list_elem_of_filter in Hin as [Hma Hmb].
    rewrite active_report_cases. destruct (reportable m); [|done].
    split; [by exists m|]. split.
    + apply cost_percent_of_spec.
    + apply cost_percent_uncapped.
  - destruct (max_start blocks) as [m|]; [|done].
    destruct Hall as [Hin _]. split; [done|]. by exists m.
Qed.

(** The scenario of three events of 500 tokens at 10:15, 10:45 and 11:10,
    evaluated at 11:12: one block from 10:00 to 15:00 with 1500 tokens,
    reported as the active session. *)
Example three_events_one_active_block :
  analyze (zone := sample_zone) (timedelta_seconds t_1112)
    [sample_entry t_1015 500; sample_entry (t_1015 + 1800) 500;
     sample_entry (t_1015 + 3300) 500] =
  inr (ActiveSession (utc (t_1015 - 900 + 18000)) (cost_percent_of 1500) 1500
         (utc (t_1015 - 900)) 1).
Proof. vm_compute. reflexivity. Qed.

End Selection.

(** * Ingestion: de-duplication, zero-token events, failures *)

Section IngestionClaims.

Context `{lib : PythonLibrary} `{zone : LocalZone}.


Lemma ingest_lines_cons cutoff st p line l :
  ingest_lines cutoff st ((p, line) :: l) =
  ingest_lines cutoff (ingest_line cutoff p st line) l.
Proof. reflexivity. Qed.

(** A line that is passed over in the state in which it is met can be
    removed from the log. *)
Lemma ingest_lines_skip cutoff st l1 p line l2 :
  ingest_line cutoff p (ingest_lines cutoff st l1) line = ingest_lines cutoff st l1 →
  ingest_lines cutoff st (l1 ++ (p, line) :: l2) = ingest_lines cutoff st (l1 ++ l2).
Proof.
  intros H. by rewrite !ingest_lines_app, ingest_lines_cons, H.
Qed.

(** A second occurrence of a line with a key is passed over. *)
Lemma second_occurrence_skipped cutoff st p line l q k :
  line_key line = Some k →
  let st' := ingest_lines cutoff (ingest_line cutoff p st line) l in
  ingest_line cutoff q st' line = st'.
Proof.
  intros Hkey st'.
  destruct (ingest_line_then_inert cutoff p st line k Hkey)
    as [Hrec|Hinert]; [|apply Hinert].
  apply (ingest_line_recorded cutoff q st' line k Hkey).
  by apply ingest_lines_hashes_mono.
Qed.

Lemma visited_lines_nonempty (files : list log_file) :
  visited_lines files ≠ [] → files ≠ [].
Proof. by destruct files. Qed.

Lemma session_body_load now files files' :
  files ≠ [] → files' ≠ [] →
  load_entries (now - timedelta_hours hours_back) files' =
  load_entries (now - timedelta_hours hours_back) files →
  session_body now files' = session_body now files.
Proof.
  intros Hf Hf' Heq. unfold session_body.
  destruct files; [done|]. destruct files'; [done|]. by rewrite Heq.
Qed.

(** C8.  A log in which a line that carries a dedup key occurs a second
    time gives the same entries, hence the same blocks with the same
    totals and the same result, as the log without the second
    occurrence. *)
Theorem dedup_idempotent (now : Z) (files files' : list log_file)
    l1 p line l2 q l3 k :
  line_key line = Some k →
  visited_lines files = l1 ++ (p, line) :: l2 ++ l3 →
  visited_lines files' = l1 ++ (p, line) :: l2 ++ (q, line) :: l3 →
  let cutoff := now - timedelta_hours hours_back in
  load_entries cutoff files' = load_entries cutoff files ∧
  marked_blocks now (all_entries (load_entries cutoff files')) =
    marked_blocks now (all_entries (load_entries cutoff files)) ∧
  get_claude_session_data_claude_monitor_exact now files' = get_claude_session_data_claude_monitor_exact now files.
Proof.
  intros Hkey Hv Hv' cutoff.
  assert (load_entries cutoff files' = load_entries cutoff files) as Heq.
  { rewrite !load_entries_visited, Hv, Hv'.
    rewrite !ingest_lines_app, !ingest_lines_cons.
    rewrite !ingest_lines_app, ingest_lines_cons.
    by rewrite (second_occurrence_skipped cutoff _ p line l2 q k Hkey). }
  split; [done|]. split; [by rewrite Heq|].
  unfold get_claude_session_data_claude_monitor_exact.
  rewrite (session_body_load now files files'); [done| | |done].
  - apply visited_lines_nonempty. rewrite Hv. by destruct l1.
  - apply visited_lines_nonempty. rewrite Hv'. by destruct l1.
Qed.

(** C2, amended.  A key is recorded when a line carrying it is accepted
    as an entry, and only then.  A line whose key is already recorded is
    passed over whatever its token counts are; hence once a line with a
    key has been accepted, every later line with the same key can be
    removed from the log without changing the outcome of ingestion. *)
Theorem dedup_recorded_key (cutoff : Z) (k : string) :
  (∀ q st line,
     line_key line = Some k → k ∈ processed_hashes st →
     ingest_line cutoff q st line = st) ∧
  (∀ l1 p first l2 q later l3 en,
     line_key first = Some k → line_key later = Some k →
     ingest_line cutoff p (ingest_lines cutoff ingest_init l1) first =
       accept_entry (ingest_lines cutoff ingest_init l1) en (Some k) →
     ingest_lines cutoff ingest_init (l1 ++ (p, first) :: l2 ++ (q, later) :: l3) =
     ingest_lines cutoff ingest_init (l1 ++ (p, first) :: l2 ++ l3)) ∧
  (∀ p st line,
     k ∈ processed_hashes (ingest_line cutoff p st line) →
     k ∈ processed_hashes st ∨
     line_key line = Some k ∧
     ∃ en, ingest_line cutoff p st line = accept_entry st en (Some k)).
Proof.
  split; [|split].
  - intros q st line Hkey Hk.
    by apply (ingest_line_recorded cutoff q st line k).
  - intros l1 p first l2 q later l3 en Hfirst Hlater Hacc.
    rewrite !ingest_lines_app, !ingest_lines_cons.
    rewrite !ingest_lines_app, ingest_lines_cons.
    f_equal.
    apply (ingest_line_recorded cutoff q _ later k Hlater).
    apply ingest_lines_hashes_mono. rewrite Hacc. simpl. set_solver.
  - intros p st line Hk.
    destruct (ingest_line_cases cutoff p st line)
      as [Heq|(en & _ & _ & Heq)]; rewrite Heq in Hk; [by left|].
    simpl in Hk. destruct (line_key line) as [k'|] eqn:Hkey; simpl in Hk.
    + apply elem_of_union in Hk as [Hk|Hk]; [|by left].
      apply elem_of_singleton in Hk as ->. right. split; [done|].
      by exists en.
    + by left.
Qed.

(** C9.  A line that is an event with zero input and zero output tokens
    leaves the state of ingestion as it is; every entry that ingestion
    collects has a non-zero input or output count; and when blocks are
    built from the collected entries, every entry of every block is one
    of them and every block's total is the sum over its entries. *)
Theorem zero_tokens_discarded (cutoff : Z) :
  (∀ p st data,
     zero_token_event data = true →
     ingest_line cutoff p st (Decoded data) = st) ∧
  (∀ files en,
     en ∈ all_entries (load_entries cutoff files) →
     py_eq_zero (input_tokens en) && py_eq_zero (output_tokens en) = false) ∧
  (∀ files blocks b,
     transform_to_blocks (sort_entries (all_entries (load_entries cutoff files)))
       = inr blocks →
     b ∈ blocks →
     block_total_tokens b = sum_totals (entries b) ∧
     ∀ en, en ∈ entries b →
       en ∈ all_entries (load_entries cutoff files) ∧
       py_eq_zero (input_tokens en) && py_eq_zero (output_tokens en) = false).
Proof.
  assert (∀ files en,
     en ∈ all_entries (load_entries cutoff files) →
     py_eq_zero (input_tokens en) && py_eq_zero (output_tokens en) = false)
    as Hnonzero.
  { intros files en Hen.
    rewrite load_entries_visited in Hen.
    revert en Hen. apply Forall_forall.
    apply ingest_lines_entries_Forall; [|constructor].
    by intros p en (_ & _ & Hnz & _). }
  split; [|split; [exact Hnonzero|]].
  - intros p st data Hzero.
    destruct data as [| | | | |d]; try done.
    unfold ingest_line, process_line.
    unfold zero_token_event in Hzero.
    destruct (negb (py_eq_str _ _)); [done|].
    destruct (negb (truthy _)); [done|].
    destruct (parse_timestamp _) as [e|[w|ts]]; simpl; [done..|].
    destruct (instant ts <? cutoff); [done|].
    destruct (already_processed _ _); [done|].
    destruct (py_get (dict_get d "message" (JObj ∅)) "usage" (JObj ∅))
      as [e|usage]; simpl; [done|].
    destruct (negb (truthy usage)); [done|].
    destruct (py_get usage "input_tokens" (JInt 0)) as [e|input]; simpl; [done|].
    destruct (py_get usage "output_tokens" (JInt 0)) as [e|output]; simpl; [done|].
    by rewrite Hzero.
  - intros files blocks b Hrun Hb.
    destruct (transform_to_blocks_inv _ blocks Hrun) as (Hcat & Hok & _).
    rewrite Forall_forall in Hok. destruct (Hok b Hb) as (f & r & _ & _ & _ & _ & Htot & _).
    split; [done|]. intros en Hen.
    assert (en ∈ all_entries (load_entries cutoff files)) as Hin.
    { rewrite <- (sort_entries_perm (all_entries _)), <- Hcat.
      apply (elem_of_concat _ (entries b)); [done|].
      by apply list_elem_of_fmap_2. }
    split; [done|]. by apply (Hnonzero files).
Qed.

(** C10.  The function returns a value for every input: an exception in
    the body is turned into the empty result.  Blank lines, lines that
    [json.loads] rejects and lines whose processing raises leave the
    state of ingestion as it is, and so do records that lack the type,
    the timestamp or the message; a timestamp that cannot be parsed
    raises [ValueError], which is such a case.  A line that is passed
    over can be removed from the log without changing what the other
    lines contribute, a file that cannot be opened is passed over, and a
    run that collects no entry returns the empty result. *)
Theorem never_raises (now : Z) :
  (∀ files,
     match session_body now files with
     | inr r => get_claude_session_data_claude_monitor_exact now files = r
     | inl _ => get_claude_session_data_claude_monitor_exact now files = NoData
     end) ∧
  (∀ cutoff p st,
     ingest_line cutoff p st Blank = st ∧
     ingest_line cutoff p st Malformed = st) ∧
  (∀ cutoff p st data e,
     process_line cutoff p st data = inl e →
     ingest_line cutoff p st (Decoded data) = st) ∧
  (∀ cutoff p st (d : gmap string json),
     d !! "type" = None ∨ d !! "timestamp" = None ∨ d !! "message" = None →
     ingest_line cutoff p st (Decoded (JObj d)) = st) ∧
  (∀ cutoff p st (d : gmap string json) s,
     d !! "type" = Some (JStr "assistant") →
     d !! "timestamp" = Some (JStr s) → s ≠ EmptyString →
     fromisoformat (replace_Z s) = None →
     process_line cutoff p st (JObj d) = inl ValueError) ∧
  (∀ cutoff l1 p line l2,
     ingest_line cutoff p (ingest_lines cutoff ingest_init l1) line =
       ingest_lines cutoff ingest_init l1 →
     ingest_lines cutoff ingest_init (l1 ++ (p, line) :: l2) =
     ingest_lines cutoff ingest_init (l1 ++ l2)) ∧
  (∀ cutoff st p,
     ingest_file cutoff st {| path := p; content := None |} = st) ∧
  (∀ files,
     all_entries (load_entries (now - timedelta_hours hours_back) files) = [] →
     get_claude_session_data_claude_monitor_exact now files = NoData).
Proof.
  repeat split.
  - intros files.
    unfold get_claude_session_data_claude_monitor_exact.
    by destruct (session_body now files).
  - intros cutoff p st data e H.
    unfold ingest_line. by rewrite H.
  - intros cutoff p st d Hmiss.
    unfold ingest_line, process_line, dict_get.
    destruct Hmiss as [H|[H|H]].
    + by rewrite H.
    + rewrite H. simpl. by destruct (negb (py_eq_str _ _)).
    + rewrite H. simpl.
      destruct (negb (py_eq_str _ _)); [done|].
      destruct (negb (truthy _)); [done|].
      destruct (parse_timestamp _) as [e|[w|ts]]; simpl; [done..|].
      destruct (instant ts <? cutoff); [done|].
      by destruct (already_processed _ _).
  - intros cutoff p st d s Hty Hts Hs Hparse.
    unfold process_line, dict_get, parse_timestamp.
    rewrite Hty, Hts. cbn -[replace_Z]. rewrite Hparse. by destruct s.
  - intros cutoff l1 p line l2. apply ingest_lines_skip.
  - intros files Hempty.
    unfold get_claude_session_data_claude_monitor_exact,
      session_body.
    destruct (in_range _); [|done].
    destruct files; [done|]. by rewrite Hempty.
Qed.

End IngestionClaims.

(** * The sample log *)

#[local] Existing Instance sample_library.

(** C2, as stated, fails: the key [msg_2:req_2] is first met on a line
    with zero tokens, which is discarded without the key being recorded;
    the later line with the same key is not dropped but accepted, with
    its 12 tokens. *)
Lemma later_line_with_seen_key_accepted :
  line_key line_zero = Some "msg_2:req_2" ∧
  line_key line_late = Some "msg_2:req_2" ∧
  total_tokens <$>
    all_entries (load_entries sample_cutoff
                   (sample_log [line_zero; line_late])) = [JInt 12] ∧
  all_entries (load_entries sample_cutoff
                 (sample_log [line_zero])) = [].
Proof. vm_compute. repeat split. Qed.

Lemma dedup_recorded_key_witness :
  ingest_lines sample_cutoff ingest_init
    [("a.jsonl", line_a); ("b.jsonl", line_a_again)] =
  ingest_lines sample_cutoff ingest_init
    [("a.jsonl", line_a)].
Proof.
  pose proof (proj1 (proj2 (dedup_recorded_key sample_cutoff "msg_1:req_1"))) as H.
  apply (H [] "a.jsonl" line_a [] "b.jsonl" line_a_again []
           (sample_entry_of_line_a "a.jsonl")); reflexivity.
Defined.

Lemma dedup_idempotent_witness :
  get_claude_session_data_claude_monitor_exact (zone := sample_zone)
    (timedelta_seconds t_1112) (sample_log [line_a; line_late; line_a]) =
  get_claude_session_data_claude_monitor_exact (zone := sample_zone)
    (timedelta_seconds t_1112) (sample_log [line_a; line_late]).
Proof.
  apply (dedup_idempotent (zone := sample_zone)
           (timedelta_seconds t_1112)
           (sample_log [line_a; line_late]) (sample_log [line_a; line_late; line_a])
           [] "session.jsonl" line_a [("session.jsonl", line_late)]
           "session.jsonl" [] "msg_1:req_1"); reflexivity.
Defined.

Lemma zero_tokens_discarded_witness :
  ingest_line sample_cutoff "session.jsonl"
    ingest_init line_zero = ingest_init.
Proof.
  apply (proj1 (zero_tokens_discarded sample_cutoff) "session.jsonl" ingest_init).
  reflexivity.
Defined.

Lemma never_raises_witness :
  get_claude_session_data_claude_monitor_exact (zone := sample_zone)
    (timedelta_seconds t_1112) (sample_log [Malformed; line_bad_time; line_zero]) =
  NoData.
Proof.
  apply (never_raises (zone := sample_zone) (timedelta_seconds t_1112)).
  reflexivity.
Defined.

(** Counts that are strings pass the zero test and are concatenated;
    the entry is accepted, the block loop then raises [TypeError] on its
    total, and the outer handler returns the empty result for the whole
    log. *)
Remark string_counts_abort_the_run :
  get_claude_session_data_claude_monitor_exact (zone := sample_zone)
    (timedelta_seconds t_1112)
    (sample_log [line_a]) = ExpiredSession (inject_Z 100) 150 ∧
  session_body (zone := sample_zone) (timedelta_seconds t_1112)
    (sample_log [line_a; line_string_counts]) = inl TypeError ∧
  get_claude_session_data_claude_monitor_exact (zone := sample_zone)
    (timedelta_seconds t_1112)
    (sample_log [line_a; line_string_counts]) = NoData.
Proof. vm_compute. repeat split. Qed.

(** * Further properties of block construction and selection *)

Section BlockLaws.

Context `{zone : LocalZone}.

Lemma sum_totals_app l k : sum_totals (l ++ k) = sum_totals l + sum_totals k.
Proof.
  unfold sum_totals. induction l as [|x l IH]; simpl; [lia|]. rewrite IH. lia.
Qed.

Lemma blocks_total_concat bs :
  Forall block_ok bs →
  blocks_total bs = sum_totals (concat (entries <$> bs)).
Proof.
  induction 1 as [|b bs (f & r & _ & _ & _ & _ & Htot & _) _ IH]; [done|].
  rewrite fmap_cons. simpl. rewrite sum_totals_app, <- IH, Htot. done.
Qed.

(** X1.  No token is lost or counted twice by the block loop: whenever it
    returns, the totals of the blocks add up to the sum of the totals of
    the entries it was given, in whatever order they came. *)
Theorem tokens_conserved (events : list entry) (blocks : list block) :
  transform_to_blocks events = inr blocks →
  blocks_total blocks = sum_totals events.
Proof.
  intros Hrun.
  destruct (transform_inactive events blocks Hrun)
    as (Hok & _ & Hcat).
  by rewrite (blocks_total_concat blocks Hok), Hcat.
Qed.

Lemma tokens_conserved_witness :
  ∃ blocks,
    transform_to_blocks
      [sample_entry t_1015 500; sample_entry (t_1015 + 10800) 700] = inr blocks ∧
    blocks_total blocks = 1200.
Proof.
  eexists. split; [reflexivity|].
  by rewrite (tokens_conserved
                [sample_entry t_1015 500; sample_entry (t_1015 + 10800) 700] _ eq_refl).
Defined.

Lemma finalize_closed blocks cur :
  Forall (λ b, ∃ l, last (entries b) = Some l ∧
                    actual_end_time b = Some (timestamp l)) blocks →
  Forall (λ b, ∃ l, last (entries b) = Some l ∧
                    actual_end_time b = Some (timestamp l)) (finalize blocks cur).
Proof.
  intros H. unfold finalize. destruct cur as [b|]; [|done].
  destruct (last (entries b)) as [l|] eqn:Hl; [|done].
  apply Forall_app. split; [done|]. repeat constructor. by exists l.
Qed.

Lemma build_loop_closed l : ∀ st st',
  build_loop st l = inr st' →
  Forall (λ b, ∃ l, last (entries b) = Some l ∧
                    actual_end_time b = Some (timestamp l)) (session_blocks st) →
  Forall (λ b, ∃ l, last (entries b) = Some l ∧
                    actual_end_time b = Some (timestamp l)) (session_blocks st').
Proof.
  induction l as [|e l IH]; intros st st' Hrun Hst; simpl in Hrun.
  { by injection Hrun as <-. }
  destruct (build_step st e) as [x|st1] eqn:Hstep; [done|]. simpl in Hrun.
  apply (IH st1 st' Hrun).
  unfold build_step in Hstep.
  destruct (should_create_new_block (current_block st) e);
    [|destruct (current_block st) as [b|] eqn:Hcur].
  - destruct (new_block e) as [|b0]; [done|]. simpl in Hstep.
    destruct (add_entry b0 e); [done|]. simpl in Hstep.
    injection Hstep as <-. simpl. by apply finalize_closed.
  - destruct (add_entry b e); [done|]. simpl in Hstep. by injection Hstep as <-.
  - destruct (new_block e) as [|b0]; [done|]. simpl in Hstep.
    destruct (add_entry b0 e); [done|]. simpl in Hstep.
    by injection Hstep as <-.
Qed.

(** X2.  The shape of every block the loop returns.  Its start is the first
    entry's timestamp with minutes, seconds and microseconds cleared in
    that entry's own UTC offset, hence at most one hour (exclusive)
    before the first entry; its end is five hours after its start; its
    id is its start; it is not yet flagged; and its actual end time is
    the timestamp of its last entry. *)
Theorem block_shape (events : list entry) (blocks : list block) (b : block) :
  transform_to_blocks events = inr blocks → b ∈ blocks →
  ∃ first rest l,
    entries b = first :: rest ∧ last (entries b) = Some l ∧
    wall (start_time b) `mod` 3600000000 = 0 ∧
    utcoffset (start_time b) = utcoffset (timestamp first) ∧
    instant (start_time b) ≤ instant (timestamp first) ∧
    instant (timestamp first) < instant (start_time b) + timedelta_hours 1 ∧
    instant (end_time b) = instant (start_time b) + timedelta_hours 5 ∧
    block_id b = start_time b ∧
    is_active b = false ∧
    actual_end_time b = Some (timestamp l).
Proof.
  intros Hrun Hb.
  destruct (transform_inactive events blocks Hrun)
    as (Hok & _ & _).
  rewrite Forall_forall in Hok.
  destruct (Hok b Hb) as (f & r & He & Hs & Hid & Hend & _ & Hact & _).
  assert (∃ l, last (entries b) = Some l ∧ actual_end_time b = Some (timestamp l))
    as (l & Hl & Hact').
  { unfold transform_to_blocks in Hrun.
    destruct (build_loop build_init events) as [x|st'] eqn:Hloop; [done|].
    simpl in Hrun. injection Hrun as <-.
    pose proof (build_loop_closed events build_init st' Hloop) as Hclosed.
    specialize (Hclosed (Forall_nil_2 _)).
    apply (finalize_closed _ (current_block st')) in Hclosed.
    rewrite Forall_forall in Hclosed. by apply Hclosed. }
  exists f, r, l.
  pose proof (replace_hour_bounds (timestamp f)) as Hb'. rewrite <- Hs in Hb'.
  repeat split; try done; try lia.
  - rewrite Hs. unfold replace_hour. simpl.
    rewrite Zminus_mod, Zmod_mod, Z.sub_diag. done.
  - by rewrite Hs.
  - by apply instant_dt_add.
Qed.

Lemma block_shape_witness :
  ∃ b blocks,
    transform_to_blocks [sample_entry t_1015 500] = inr blocks ∧ b ∈ blocks ∧
    wall (start_time b) `mod` 3600000000 = 0.
Proof.
  eexists _, _. split; [reflexivity|]. split; [apply list_elem_of_here|].
  destruct (block_shape [sample_entry t_1015 500] _ _ eq_refl
              (list_elem_of_here _ _)) as (f & r & l & _ & _ & H & _).
  exact H.
Defined.

#[global] Instance starts_before_trans : Transitive starts_before.
Proof. unfold starts_before, timedelta_hours. intros x y z. lia. Qed.

Lemma adjacent_starts a b :
  block_ok a → block_ok b → StronglySorted by_instant (entries a) →
  split_after a b → starts_before a b.
Proof.
  intros (fa & ra & Hea & Hsa & _ & Henda & _) (fb & rb & Heb & Hsb & _)
    Hsorted (l & f & Hl & Hf & Hsplit).
  rewrite Heb in Hf. injection Hf as <-.
  pose proof (replace_hour_bounds (timestamp fa)) as Ha. rewrite <- Hsa in Ha.
  pose proof (replace_hour_bounds (timestamp fb)) as Hb. rewrite <- Hsb in Hb.
  assert (instant (end_time a) = instant (start_time a) + timedelta_hours 5)
    as Hend by (by apply instant_dt_add).
  assert (instant (timestamp fa) ≤ instant (timestamp l)) as Hfl.
  { rewrite Hea in Hsorted, Hl. apply StronglySorted_inv in Hsorted as [_ Hall].
    apply last_Some_elem_of in Hl.
    apply elem_of_cons in Hl as [->|Hl]; [lia|].
    rewrite Forall_forall in Hall. by apply (Hall l). }
  unfold starts_before, timedelta_hours in *. lia.
Qed.

Lemma starts_sorted bs :
  Forall block_ok bs → Sorted split_after bs →
  Forall (λ b, StronglySorted by_instant (entries b)) bs →
  StronglySorted starts_before bs.
Proof.
  intros Hok Hsep Hsorted. apply Sorted_StronglySorted; [apply _|].
  revert Hok Hsorted.
  induction Hsep as [|a bs Hsep IH Hhd]; intros Hok Hsorted; [constructor|].
  apply Forall_cons in Hok as [Hoka Hok].
  apply Forall_cons in Hsorted as [Hsa Hsorted].
  apply Sorted_cons; [exact (IH Hok Hsorted)|].
  destruct Hhd as [|b bs' Hab]; constructor.
  apply Forall_cons in Hok as [Hokb _]. by apply adjacent_starts.
Qed.

Lemma max_from_last l : ∀ best,
  StronglySorted starts_before (best :: l) →
  max_from best l = default best (last l).
Proof.
  induction l as [|x l IH]; intros best Hs; [done|].
  apply StronglySorted_inv in Hs as [Hs Hall]. simpl.
  apply Forall_cons in Hall as [Hbx _].
  assert ((instant (start_time best) <? instant (start_time x)) = true) as ->.
  { apply Z.ltb_lt. unfold starts_before, timedelta_hours in Hbx. lia. }
  rewrite (IH x Hs). destruct l as [|y l']; [done|].
  rewrite last_cons_cons. destruct (last (y :: l')) eqn:E; [done|].
  by apply last_None in E.
Qed.

Lemma max_start_last l :
  StronglySorted starts_before l → max_start l = last l.
Proof.
  destruct l as [|b l]; [done|]. intros Hs. simpl max_start.
  rewrite (max_from_last l b Hs). destruct l as [|x l]; [done|].
  rewrite last_cons_cons. destruct (last (x :: l)) eqn:E; [done|].
  by apply last_None in E.
Qed.

Lemma StronglySorted_filter_blocks (P : block → Prop) `{∀ b, Decision (P b)} l :
  StronglySorted starts_before l → StronglySorted starts_before (filter P l).
Proof.
  induction 1 as [|b l Hs IH Hall]; [constructor|].
  rewrite filter_cons. destruct (decide (P b)); [|done].
  constructor; [done|]. apply Forall_forall. intros x Hx.
  apply list_elem_of_filter in Hx as [_ Hx].
  rewrite Forall_forall in Hall. by apply Hall.
Qed.

Lemma mark_active_starts now bs :
  StronglySorted starts_before bs →
  StronglySorted starts_before (mark_active now bs).
Proof.
  intros Hs. unfold mark_active.
  apply (StronglySorted_fmap (mark_block now) starts_before starts_before); [|done].
  intros a b. unfold starts_before.
  destruct (mark_block_fields now a) as (_ & -> & _).
  by destruct (mark_block_fields now b) as (_ & -> & _).
Qed.

(** X3.  The blocks are built in chronological order: each block starts more
    than an hour after the one before it.  The block with the latest
    start, which the selection reports, is therefore the last block of
    the list, and the reported active block is the last flagged one. *)
Theorem latest_block_is_last (now : Z) (events : list entry) (blocks : list block) :
  marked_blocks now events = inr blocks →
  StronglySorted starts_before blocks ∧
  max_start blocks = last blocks ∧
  max_start (filter (λ b, is_active b = true) blocks) =
    last (filter (λ b, is_active b = true) blocks).
Proof.
  intros Hrun.
  destruct (marked_blocks_inv now events blocks Hrun)
    as (bs & -> & Hok & Hsep & Hcat).
  assert (StronglySorted starts_before (mark_active now bs)) as Hs.
  { apply mark_active_starts, starts_sorted; [done..|].
    pose proof (sort_entries_sorted events) as Hsorted.
    rewrite <- Hcat in Hsorted. apply concat_StronglySorted in Hsorted.
    by rewrite Forall_fmap in Hsorted. }
  split; [done|]. split; [by apply max_start_last|].
  by apply max_start_last, StronglySorted_filter_blocks.
Qed.

Lemma latest_block_last now events blocks :
  marked_blocks now events = inr blocks → max_start blocks = last blocks.
Proof.
  intros Hrun.
  destruct (marked_blocks_inv now events blocks Hrun)
    as (bs & -> & Hok & Hsep & Hcat).
  apply max_start_last, mark_active_starts, starts_sorted; [done..|].
  pose proof (sort_entries_sorted events) as Hsorted.
  rewrite <- Hcat in Hsorted. apply concat_StronglySorted in Hsorted.
  by rewrite Forall_fmap in Hsorted.
Qed.

Lemma latest_block_is_last_witness :
  ∃ blocks,
    marked_blocks (timedelta_seconds t_1112) skewed_log = inr blocks ∧
    max_start blocks = last blocks.
Proof.
  eexists. split; [reflexivity|].
  apply (latest_block_is_last (timedelta_seconds t_1112) skewed_log _ eq_refl).
Defined.

Lemma length_concat_member {A} (l : list A) (ls : list (list A)) :
  l ∈ ls → (length l ≤ length (concat ls))%nat.
Proof.
  induction 1 as [l ls|l l' ls _ IH]; simpl; rewrite length_app; lia.
Qed.

Lemma analyze_inv now events r :
  analyze now events = inr r →
  events = [] ∧ r = NoData ∨
  events ≠ [] ∧ ∃ bs,
    marked_blocks now events = inr (mark_active now bs) ∧
    select (mark_active now bs) = inr r ∧
    Forall block_ok bs ∧ Sorted split_after bs ∧
    concat (entries <$> bs) = sort_entries events.
Proof.
  unfold analyze. destruct events as [|e events]; [intros [= <-]; by left|].
  destruct (marked_blocks now (e :: events)) as [x|blocks] eqn:Hrun; [done|].
  simpl. intros Hsel. right. split; [done|].
  destruct (marked_blocks_inv now _ blocks Hrun) as (bs & -> & H).
  by exists bs.
Qed.

(** X4.  What an active report guarantees.  The reset time shown lies after
    the evaluation instant and exactly five hours after the reported
    block's start, which is on the hour; the log has at least three
    entries; and the percentage is the one of the reported total. *)
Theorem active_session_sound (now : Z) (events : list entry)
    reset percent tokens start n :
  analyze now events = inr (ActiveSession reset percent tokens start n) →
  now < instant reset ∧
  instant reset = instant start + timedelta_hours 5 ∧
  wall start `mod` 3600000000 = 0 ∧
  (3 ≤ length events)%nat ∧
  (1 ≤ n)%nat ∧
  percent = cost_percent_of tokens.
Proof.
  intros Hrun.
  apply analyze_inv in Hrun as [[_ [=]]|(_ & bs & _ & Hsel & Hok & _ & Hcat)].
  unfold select in Hsel.
  pose proof (max_start_spec
                (filter (λ b, is_active b = true) (mark_active now bs))) as Hmax.
  destruct (max_start (filter _ (mark_active now bs))) as [m|].
  2:{ by destruct (max_start (mark_active now bs)). }
  rewrite active_report_cases in Hsel. destruct (reportable m); [|done].
  injection Hsel as <- <- <- <- <-.
  destruct Hmax as [Hin _]. apply list_elem_of_filter in Hin as [Hact Hin].
  apply list_elem_of_fmap in Hin as (b0 & -> & Hb0).
  rewrite Forall_forall in Hok. pose proof (Hok b0 Hb0) as Hokb.
  rewrite (marked_flag now b0 Hokb) in Hact.
  apply qualifies_spec in Hact as (Hend & Hlen & _).
  destruct (mark_block_fields now b0) as (_ & _ & -> & _ & ->).
  destruct Hokb as (f & r & He & Hs & -> & Hendb & _).
  repeat split; try done.
  - by apply instant_dt_add.
  - rewrite Hs. unfold replace_hour. simpl.
    rewrite Zminus_mod, Zmod_mod, Z.sub_diag. done.
  - rewrite <- (Permutation_length (sort_entries_perm events)), <- Hcat.
    etrans; [exact Hlen|]. apply length_concat_member.
    by apply list_elem_of_fmap_2.
  - unfold mark_active. rewrite length_fmap.
    apply list_elem_of_lookup in Hb0 as [i Hi].
    apply lookup_lt_Some in Hi. lia.
Qed.

(** X5.  A log whose entries are all more than thirty minutes old is
    reported as expired, with the constant 100 percent and the total of
    the last block built, whenever the block list is built; it is built
    when the totals are numbers and the windows are representable. *)
Theorem idle_log_is_expired (now : Z) (events : list entry) :
  events ≠ [] →
  Forall (λ e, timedelta_seconds 1800 < now - instant (timestamp e)) events →
  (∀ blocks,
     marked_blocks now events = inr blocks →
     ∃ b,
       last blocks = Some b ∧
       analyze now events = inr (ExpiredSession (inject_Z 100) (block_total_tokens b))) ∧
  (Forall (λ e, numeric_total e = true) events →
   Forall (λ e, window_representable e = true) events →
   ∃ blocks, marked_blocks now events = inr blocks).
Proof.
  intros Hne Hidle. split.
  2:{ intros Hnum Hrep.
      destruct (marked_blocks_numeric now events Hnum Hrep) as (bs & _ & Hmarked & _).
      by exists (mark_active now bs). }
  intros blocks Hmarked.
  destruct (marked_blocks_inv now events blocks Hmarked)
    as (bs & -> & Hok & Hsep & Hcat).
  assert (filter (λ b, is_active b = true) (mark_active now bs) = []) as Hnone.
  { apply (sort_entries_Forall _ events) in Hidle. rewrite <- Hcat in Hidle.
    clear Hcat Hmarked Hsep. unfold mark_active.
    induction Hok as [|b0 bs Hb0 Hok IH]; [done|].
    rewrite fmap_cons in Hidle. simpl in Hidle.
    apply Forall_app in Hidle as [Hidle0 Hidle].
    rewrite fmap_cons, filter_cons, (marked_flag now b0 Hb0).
    assert (qualifies now b0 = false) as ->.
    { unfold qualifies. destruct (last (entries b0)) as [l|] eqn:Hl;
        [|by rewrite andb_false_r].
      apply last_Some_elem_of in Hl.
      rewrite Forall_forall in Hidle0. apply Hidle0 in Hl.
      assert ((now - instant (timestamp l) <=? timedelta_seconds 1800) = false)
        as -> by (apply Z.leb_gt; lia).
      by rewrite andb_false_r. }
    destruct (decide (false = true)); [done|]. by apply IH. }
  pose proof (latest_block_last now events _ Hmarked) as Hlast.
  destruct (max_start (mark_active now bs)) as [m|] eqn:Hm.
  - exists m. split; [by rewrite <- Hlast|].
    unfold analyze. destruct events as [|e events]; [done|].
    rewrite Hmarked. simpl. unfold select. by rewrite Hnone, Hm.
  - exfalso. pose proof (max_start_spec (mark_active now bs)) as Hspec.
    rewrite Hm in Hspec. apply fmap_nil_inv in Hspec as ->.
    simpl in Hcat. symmetry in Hcat. by apply sort_entries_nil in Hcat.
Qed.

(** X6.  The analysis does not depend on the order in which the entries were
    collected, as long as no two different entries have the same
    instant. *)
Theorem analysis_order_independent (now : Z) (events events' : list entry) :
  events ≡ₚ events' →
  (∀ x y, x ∈ events → y ∈ events →
          instant (timestamp x) = instant (timestamp y) → x = y) →
  analyze now events' = analyze now events.
Proof.
  intros Hperm Hdistinct.
  assert (sort_entries events' = sort_entries events) as Hsort.
  { apply (StronglySorted_unique_strong by_instant);
      [|apply sort_entries_sorted..|by rewrite !sort_entries_perm].
    intros x y Hx Hy Hxy Hyx.
    rewrite sort_entries_perm in Hx, Hy. rewrite <- Hperm in Hx.
    apply Hdistinct; [done..|]. unfold by_instant in *. lia. }
  unfold analyze, marked_blocks. rewrite Hsort.
  destruct events as [|e events].
  - by apply Permutation_nil in Hperm as ->.
  - destruct events' as [|e' events']; [|done].
    by apply Permutation_nil_r in Hperm.
Qed.

End BlockLaws.

Lemma active_session_sound_witness :
  timedelta_seconds t_1112 < instant (utc (t_1015 - 900 + 18000)).
Proof.
  apply (active_session_sound (zone := sample_zone) (timedelta_seconds t_1112)
           [sample_entry t_1015 500; sample_entry (t_1015 + 1800) 500;
            sample_entry (t_1015 + 3300) 500]
           _ (cost_percent_of 1500) 1500 (utc (t_1015 - 900)) 1%nat).
  vm_compute. reflexivity.
Defined.

Lemma idle_log_is_expired_witness :
  ∃ tokens,
    analyze (zone := sample_zone) (timedelta_seconds t_1112)
      [sample_entry t_1015 500] =
      inr (ExpiredSession (inject_Z 100) tokens).
Proof.
  destruct (idle_log_is_expired (zone := sample_zone) (timedelta_seconds t_1112)
              [sample_entry t_1015 500]) as [Hinv Hruns].
  - discriminate.
  - repeat constructor.
  - destruct Hruns as [blocks Hrun]; [repeat constructor..|].
    destruct (Hinv blocks Hrun) as (b & _ & H).
    by exists (block_total_tokens b).
Defined.

Lemma analysis_order_independent_witness :
  analyze (zone := sample_zone) (timedelta_seconds t_1112)
    [sample_entry (t_1015 + 1800) 700; sample_entry t_1015 500] =
  analyze (zone := sample_zone) (timedelta_seconds t_1112)
    [sample_entry t_1015 500; sample_entry (t_1015 + 1800) 700].
Proof.
  apply analysis_order_independent.
  - apply Permutation_swap.
  - intros x y Hx Hy Heq.
    apply elem_of_cons in Hx as [->|Hx]; apply elem_of_cons in Hy as [->|Hy];
      try apply list_elem_of_singleton in Hx as ->;
      try apply list_elem_of_singleton in Hy as ->;
      try reflexivity; vm_compute in Heq; discriminate.
Defined.

(** * Further properties of ingestion *)

Section IngestionLaws.

Context `{lib : PythonLibrary}.

Lemma entries_unchanged_absurd (st : ingest_state) (en : entry) :
  all_entries st ≠ all_entries st ++ [en].
Proof.
  intros H. apply (f_equal length) in H. rewrite length_app in H. simpl in H. lia.
Qed.

Lemma dict_get_type_assistant (d : gmap string json) :
  py_eq_str (dict_get d "type" JNull) "assistant" = true →
  d !! "type" = Some (JStr "assistant").
Proof.
  unfold dict_get. destruct (d !! "type") as [[| | |s| |]|]; simpl; try done.
  intros H. apply String.eqb_eq in H. by subst.
Qed.

(** X7.  What it takes for a line to contribute an entry.  The line decodes
    to a dict of type [assistant]; its timestamp is a string that parses
    to an aware datetime not older than the cutoff; its hash, if it has
    one, is not yet recorded; its usage is a non-empty dict whose input
    and output counts are not both zero and can be added.  The entry holds
    that datetime, those counts and their sum, and the hash is recorded. *)
Theorem accepted_line_inversion (cutoff : Z) (p : string) (st : ingest_state)
    (line : raw_line) (en : entry) :
  all_entries (ingest_line cutoff p st line) = all_entries st ++ [en] →
  ∃ (d u : gmap string json) s,
    line = Decoded (JObj d) ∧
    d !! "type" = Some (JStr "assistant") ∧
    d !! "timestamp" = Some (JStr s) ∧
    fromisoformat (replace_Z s) = Some (Aware (timestamp en)) ∧
    cutoff ≤ instant (timestamp en) ∧
    already_processed (unique_hash d) st = false ∧
    py_get (dict_get d "message" (JObj ∅)) "usage" (JObj ∅) = inr (JObj u) ∧
    u ≠ ∅ ∧
    input_tokens en = dict_get u "input_tokens" (JInt 0) ∧
    output_tokens en = dict_get u "output_tokens" (JInt 0) ∧
    py_eq_zero (input_tokens en) && py_eq_zero (output_tokens en) = false ∧
    py_add (input_tokens en) (output_tokens en) = inr (total_tokens en) ∧
    file en = p ∧
    processed_hashes (ingest_line cutoff p st line) =
      record_hash (unique_hash d) (processed_hashes st).
Proof.
  intros Hacc.
  destruct line as [| |data]; try (by apply entries_unchanged_absurd in Hacc).
  destruct data as [| | | | |d]; try (by apply entries_unchanged_absurd in Hacc).
  revert Hacc. unfold ingest_line, process_line.
  destruct (py_eq_str (dict_get d "type" JNull) "assistant") eqn:Hty; simpl;
    [|by intros ?%entries_unchanged_absurd].
  apply dict_get_type_assistant in Hty.
  cbv zeta.
  destruct (dict_get d "timestamp" JNull) as [| | |s| |] eqn:Hts; simpl;
    try (by intros ?%entries_unchanged_absurd);
    try (by destruct (negb _); simpl; intros ?%entries_unchanged_absurd).
  assert (d !! "timestamp" = Some (JStr s)) as Hts'.
  { unfold dict_get in Hts. destruct (d !! "timestamp"); simpl in Hts; by subst. }
  destruct (negb _); [by intros ?%entries_unchanged_absurd|].
  destruct (fromisoformat (replace_Z s)) as [[w|ts]|] eqn:Hparse; simpl;
    try (by intros ?%entries_unchanged_absurd).
  destruct (instant ts <? cutoff) eqn:Hcut; [by intros ?%entries_unchanged_absurd|].
  apply Z.ltb_ge in Hcut.
  destruct (already_processed (unique_hash d) st) eqn:Hdup;
    [by intros ?%entries_unchanged_absurd|].
  destruct (py_get (dict_get d "message" (JObj ∅)) "usage" (JObj ∅))
    as [x|usage] eqn:Husage; simpl; [by intros ?%entries_unchanged_absurd|].
  destruct (truthy usage) eqn:Htruthy; simpl;
    [|by intros ?%entries_unchanged_absurd].
  destruct usage as [| | | | |u]; simpl;
    try (by intros ?%entries_unchanged_absurd).
  fold (dict_get u "input_tokens" (JInt 0)).
  fold (dict_get u "output_tokens" (JInt 0)).
  destruct (py_eq_zero (dict_get u "input_tokens" (JInt 0)) &&
            py_eq_zero (dict_get u "output_tokens" (JInt 0))) eqn:Hzero;
    [by intros ?%entries_unchanged_absurd|].
  destruct (py_add _ _) as [x|total] eqn:Hadd; simpl;
    [by intros ?%entries_unchanged_absurd|].
  intros Hacc. apply app_inv_head in Hacc. injection Hacc as <-.
  exists d, u, s. simpl. repeat split; try done.
  intros ->. by vm_compute in Htruthy.
Qed.

(** X8.  A line that carries no dedup key is never taken for a duplicate:
    if it contributes an entry in one state, it contributes that entry in
    every state and leaves the recorded hashes alone, so a log in which
    it occurs twice has the entry twice. *)
Theorem keyless_line_counted_each_time (cutoff : Z) (p : string)
    (st : ingest_state) (line : raw_line) (en : entry) :
  line_key line = None →
  all_entries (ingest_line cutoff p st line) = all_entries st ++ [en] →
  (∀ st',
     all_entries (ingest_line cutoff p st' line) = all_entries st' ++ [en] ∧
     processed_hashes (ingest_line cutoff p st' line) = processed_hashes st') ∧
  all_entries (ingest_lines cutoff st [(p, line); (p, line)]) =
    all_entries st ++ [en; en].
Proof.
  intros Hkey Hacc.
  assert (∀ st',
     all_entries (ingest_line cutoff p st' line) = all_entries st' ++ [en] ∧
     processed_hashes (ingest_line cutoff p st' line) = processed_hashes st')
    as Hall.
  { destruct line as [| |data]; try (by apply entries_unchanged_absurd in Hacc).
    destruct (ingest_line_view cutoff data) as [Hinert|(d & mk & -> & _ & Hd)].
    - rewrite Hinert in Hacc. by apply entries_unchanged_absurd in Hacc.
    - simpl in Hkey. rewrite Hd, Hkey in Hacc. simpl in Hacc.
      apply app_inv_head in Hacc. injection Hacc as <-.
      intros st'. rewrite Hd, Hkey. done. }
  split; [exact Hall|].
  simpl. destruct (Hall (ingest_line cutoff p st line)) as [-> _].
  rewrite Hacc, <- app_assoc. done.
Qed.

End IngestionLaws.

Lemma accepted_line_inversion_witness :
  ∃ (d u : gmap string json) s,
    line_a = Decoded (JObj d) ∧
    d !! "type" = Some (JStr "assistant") ∧
    d !! "timestamp" = Some (JStr s).
Proof.
  destruct (@accepted_line_inversion sample_library sample_cutoff "a.jsonl"
              ingest_init line_a (sample_entry_of_line_a "a.jsonl") eq_refl)
    as (d & u & s & H1 & H2 & H3 & _).
  by exists d, u, s.
Defined.


Lemma keyless_line_counted_each_time_witness :
  total_tokens <$>
    all_entries (@ingest_lines sample_library sample_cutoff ingest_init
                   [("a.jsonl", line_keyless); ("a.jsonl", line_keyless)]) =
  [JInt 30; JInt 30].
Proof.
  destruct (@keyless_line_counted_each_time sample_library sample_cutoff "a.jsonl"
              ingest_init line_keyless
              {| timestamp := utc t_1015;
                 input_tokens := JInt 20;
                 output_tokens := JInt 10;
                 total_tokens := JInt 30;
                 message_id := JStr "";
                 request_id := JStr "unknown";
                 file := "a.jsonl" |} eq_refl eq_refl) as [_ H].
  by rewrite H.
Defined.

(** * The directory display *)

Section DirectoryDisplay.

Lemma prefix_empty s : String.prefix "" s = true.
Proof. by destruct s. Qed.

Lemma prefix_cons a p b s :
  String.prefix (String a p) (String b s) =
  if Ascii.eqb a b then String.prefix p s else false.
Proof.
  change (String.prefix (String a p) (String b s))
    with (if ascii_dec a b then String.prefix p s else false).
  destruct (ascii_dec a b) as [->|Hne].
  - by rewrite Ascii.eqb_refl.
  - apply Ascii.eqb_neq in Hne. by rewrite Hne.
Qed.

Lemma prefix_append p r : String.prefix p (String.append p r) = true.
Proof.
  induction p as [|c p IH]; [apply prefix_empty|].
  change (String.append (String c p) r) with (String c (String.append p r)).
  by rewrite prefix_cons, Ascii.eqb_refl.
Qed.

Lemma str_drop_append p r : str_drop (String.length p) (String.append p r) = r.
Proof. induction p as [|c p IH]; simpl; [done|exact IH]. Qed.

Lemma prefix_slash_cons c s :
  String.prefix "/" (String c s) = Ascii.eqb c "/".
Proof.
  rewrite (prefix_cons "/" "" c s), prefix_empty, Ascii.eqb_sym.
  by destruct (Ascii.eqb c "/").
Qed.

Lemma lstrip_slash_no_leading s : String.prefix "/" (lstrip_slash s) = false.
Proof.
  induction s as [|c s IH]; cbn [lstrip_slash]; [done|].
  destruct (Ascii.eqb c "/") eqn:Hc; [exact IH|]. by rewrite prefix_slash_cons.
Qed.

Lemma no_slash_no_leading s : has_slash s = false → String.prefix "/" s = false.
Proof.
  destruct s as [|c s]; [done|]. cbn [has_slash].
  intros H. apply orb_false_iff in H as [Hc _]. by rewrite prefix_slash_cons.
Qed.

Lemma rfind_slash_range p : -1 ≤ rfind_slash p < Z.of_nat (String.length p).
Proof.
  induction p as [|c p IH]; simpl rfind_slash; simpl String.length; [lia|].
  destruct (0 <=? rfind_slash p) eqn:Hr; [apply Z.leb_le in Hr; lia|].
  destruct (Ascii.eqb c "/"); lia.
Qed.

Lemma rfind_slash_none p : rfind_slash p = -1 ↔ has_slash p = false.
Proof.
  induction p as [|c p IH]; simpl; [done|].
  pose proof (rfind_slash_range p) as Hrange.
  destruct (0 <=? rfind_slash p) eqn:Hr.
  - apply Z.leb_le in Hr. split; [lia|]. intros H.
    apply orb_false_iff in H as [_ H]. apply IH in H. lia.
  - apply Z.leb_gt in Hr. assert (rfind_slash p = -1) as Hnone by lia.
    apply IH in Hnone. rewrite Hnone, orb_false_r.
    by destruct (Ascii.eqb c "/").
Qed.

Lemma posix_basename_cons c p :
  posix_basename (String c p) =
  if has_slash p then posix_basename p
  else if Ascii.eqb c "/" then p else String c p.
Proof.
  unfold posix_basename. simpl rfind_slash.
  pose proof (rfind_slash_range p) as Hrange.
  pose proof (rfind_slash_none p) as Hnone.
  destruct (0 <=? rfind_slash p) eqn:Hr.
  - apply Z.leb_le in Hr. destruct (has_slash p); [|lia].
    replace (Z.to_nat (rfind_slash p + 1 + 1)) with (S (Z.to_nat (rfind_slash p + 1)))
      by lia.
    done.
  - apply Z.leb_gt in Hr. destruct (has_slash p); [lia|].
    by destruct (Ascii.eqb c "/").
Qed.

(** A base name contains no slash. *)
Lemma posix_basename_no_slash p : has_slash (posix_basename p) = false.
Proof.
  induction p as [|c p IH]; [done|].
  rewrite posix_basename_cons.
  destruct (has_slash p) eqn:Hp; [exact IH|].
  destruct (Ascii.eqb c "/") eqn:Hc; [done|]. simpl. by rewrite Hc, Hp.
Qed.

(** The base name of [dir/name] is [name]. *)
Lemma posix_basename_join dir name :
  has_slash name = false →
  posix_basename (String.append dir (String "/" name)) = name.
Proof.
  intros Hname. induction dir as [|c dir IH].
  - change (posix_basename (String "/" name) = name).
    rewrite posix_basename_cons, Hname. done.
  - change (posix_basename (String c (String.append dir (String "/" name))) = name).
    rewrite posix_basename_cons, IH.
    assert (has_slash (String.append dir (String "/" name)) = true) as ->; [|done].
    clear. induction dir as [|c dir IH]; [done|].
    change (Ascii.eqb c "/" || has_slash (String.append dir (String "/" name)) = true).
    by rewrite IH, orb_true_r.
Qed.

Lemma truthy_nonempty s : s ≠ EmptyString → truthy (JStr s) = true.
Proof. by destruct s. Qed.

(** X10.  Inside the project.  When the current directory begins with the
    project directory, the display is what follows the project directory
    with its leading slashes removed, and the project's base name when
    nothing follows. *)
Theorem display_inside_project (d : gmap string json) (project rest : string) :
  project ≠ EmptyString →
  d !! "current_dir" = Some (JStr (String.append project rest)) →
  d !! "project_dir" = Some (JStr project) →
  get_directory_display (JObj d) =
    inr (match lstrip_slash rest with
         | EmptyString => posix_basename project
         | rel_path => rel_path
         end).
Proof.
  intros Hp Hc Hpd. unfold get_directory_display, py_get. rewrite Hc, Hpd.
  pose proof (truthy_nonempty project Hp) as Hpt.
  assert (truthy (JStr (String.append project rest)) = true) as Hct.
  { apply truthy_nonempty. by destruct project. }
  cbn [default from_option id raise_bind]. rewrite Hct, Hpt.
  cbn [andb raise_bind py_startswith].
  rewrite prefix_append, str_drop_append.
  destruct (lstrip_slash rest); done.
Qed.

Lemma display_inside_project_witness :
  get_directory_display (workspace_of "/home/u/proj/src/lib" "/home/u/proj") =
    inr "src/lib"%string.
Proof.
  apply (display_inside_project _ "/home/u/proj" "/src/lib"); done.
Defined.

(** X11.  Outside the project.  When both directories are given and the
    current one does not begin with the project directory, the display is
    the base name of the current directory; it contains no slash, and for
    a path [dir/name] it is [name]. *)
Theorem display_outside_project (d : gmap string json) (current project : string) :
  current ≠ EmptyString → project ≠ EmptyString →
  String.prefix project current = false →
  d !! "current_dir" = Some (JStr current) →
  d !! "project_dir" = Some (JStr project) →
  get_directory_display (JObj d) = inr (posix_basename current) ∧
  has_slash (posix_basename current) = false ∧
  ∀ dir name,
    current = String.append dir (String "/" name) → has_slash name = false →
    posix_basename current = name.
Proof.
  intros Hc Hp Hpre Hcd Hpd. split; [|split].
  - unfold get_directory_display, py_get. rewrite Hcd, Hpd.
    cbn [default from_option id raise_bind].
    rewrite (truthy_nonempty _ Hc), (truthy_nonempty _ Hp).
    cbn [andb raise_bind py_startswith]. by rewrite Hpre.
  - apply posix_basename_no_slash.
  - intros dir name -> Hname. by apply posix_basename_join.
Qed.

Lemma display_outside_project_witness :
  get_directory_display (workspace_of "/home/u/other" "/home/u/proj") =
    inr "other"%string.
Proof.
  destruct (display_outside_project
              ({[ "current_dir" := JStr "/home/u/other";
                  "project_dir" := JStr "/home/u/proj" ]} : gmap string json)
              "/home/u/other" "/home/u/proj") as [H _]; [done..|exact H].
Defined.

(** X12.  Whatever the workspace object holds, a display that is returned
    never begins with a slash. *)
Theorem display_no_leading_slash (workspace_data : json) (shown : string) :
  get_directory_display workspace_data = inr shown →
  String.prefix "/" shown = false.
Proof.
  assert (∀ v s, os_path_basename v = inr s → String.prefix "/" s = false) as Hbase.
  { intros [| | |p| |] s; simpl; try done. intros [= <-].
    apply no_slash_no_leading, posix_basename_no_slash. }
  unfold get_directory_display.
  destruct workspace_data as [| | | | |d]; cbn [py_get raise_bind]; try done.
  set (cd := default (JStr "") (d !! "current_dir")).
  set (pd := default (JStr "") (d !! "project_dir")).
  destruct (truthy cd && truthy pd).
  - destruct (py_startswith cd pd) as [x|[|]]; cbn [raise_bind];
      [done| |by apply Hbase].
    destruct cd as [| | |c| |]; try done.
    destruct pd as [| | |p| |]; try done.
    cbv zeta.
    destruct (truthy (JStr (lstrip_slash (str_drop (String.length p) c)))).
    + intros [= <-]. apply lstrip_slash_no_leading.
    + apply Hbase.
  - destruct (truthy pd); [by apply Hbase|].
    destruct (truthy cd); [by apply Hbase|].
    by intros [= <-].
Qed.

Lemma display_no_leading_slash_witness :
  String.prefix "/" "x/y" = false.
Proof.
  apply (display_no_leading_slash (workspace_of "/home/u/projx/y" "/home/u/proj")).
  reflexivity.
Defined.

End DirectoryDisplay.

(** * The context estimate *)

Section ContextEstimateLaws.

Context `{re : RegexLibrary}.

Lemma recent_lines_app older recent :
  (30 ≤ length recent)%nat →
  recent_lines (older ++ recent) = recent_lines recent.
Proof.
  intros Hlen. unfold recent_lines. rewrite length_app.
  destruct (30 <? length recent)%nat eqn:Hr.
  - assert ((30 <? length older + length recent)%nat = true) as ->.
    { apply Nat.ltb_lt in Hr. apply Nat.ltb_lt. lia. }
    replace (length older + length recent - 30)%nat
      with (length older + (length recent - 30))%nat by lia.
    by rewrite drop_app_add.
  - apply Nat.ltb_ge in Hr.
    destruct (30 <? length older + length recent)%nat eqn:Ho; [|].
    + replace (length older + length recent - 30)%nat
        with (length older + 0)%nat by lia.
      by rewrite drop_app_add.
    + apply Nat.ltb_ge in Ho. destruct older; [done|]. simpl in Ho. lia.
Qed.

(** X13.  Only the last thirty lines of the transcript are looked at: lines
    before them change nothing, neither the result nor an exception. *)
Theorem only_last_thirty_lines (older recent : list raw_line) :
  (30 ≤ length recent)%nat →
  parse_context_from_transcript (Lines (older ++ recent)) =
  parse_context_from_transcript (Lines recent).
Proof.
  intros Hlen. simpl. unfold estimate_from_lines.
  by rewrite recent_lines_app.
Qed.

Lemma find_warning_quiet quiet rest :
  Forall quiet_line quiet →
  find_warning (quiet ++ rest) = find_warning rest.
Proof.
  induction 1 as [|line quiet Hq _ IH]; [done|].
  simpl. destruct line as [| |data]; [exact IH..|].
  destruct Hq as [->|(e & -> & ->)]; exact IH.
Qed.

Lemma recent_lines_suffix before line after :
  (length after < 30)%nat →
  ∃ kept, recent_lines (before ++ line :: after) = kept ++ line :: after.
Proof.
  intros Hlen. unfold recent_lines. rewrite length_app. simpl.
  destruct (30 <? _)%nat; [|by exists before].
  exists (drop (length before + S (length after) - 30) before).
  rewrite drop_app_le; [done|lia].
Qed.

(** X14.  The newest warning decides.  When a line among the last thirty
    carries a system warning and every newer line is passed over by the
    first loop, the result is that warning, whatever token counts the
    transcript holds; and within one message the "Context low" pattern
    is tried first. *)
Theorem newest_warning_wins :
  (∀ before data after info,
     (length after < 30)%nat →
     system_warning data = inr (Some info) →
     Forall quiet_line after →
     parse_context_from_transcript (Lines (before ++ Decoded data :: after)) =
       inr info) ∧
  (∀ (d : gmap string json) content percent_left,
     d !! "type" = Some (JStr "system_message") →
     d !! "content" = Some (JStr content) →
     search_context_low content = inr (Some percent_left) →
     system_warning (JObj d) = inr (Some (SystemWarning (100 - percent_left) "low"))).
Proof.
  split.
  - intros before data after info Hlen Hwarn Hquiet. simpl.
    unfold estimate_from_lines.
    destruct (recent_lines_suffix before (Decoded data) after Hlen) as [kept ->].
    rewrite reverse_app, reverse_cons, <- app_assoc.
    rewrite find_warning_quiet; [|by apply Forall_reverse].
    simpl. by rewrite Hwarn.
  - intros d content percent_left Hty Hc Hlow.
    unfold system_warning, py_get. rewrite Hty, Hc. simpl. by rewrite Hlow.
Qed.

(** X15.  A line among the last thirty that decodes to something other than an
    object makes the function raise [AttributeError], unless a newer
    line stops the first loop before. *)
Theorem non_object_line_raises (before after : list raw_line) (v : json) :
  (length after < 30)%nat →
  (∀ m, v ≠ JObj m) →
  Forall quiet_line after →
  parse_context_from_transcript (Lines (before ++ Decoded v :: after)) =
    inl AttributeError.
Proof.
  intros Hlen Hv Hquiet. simpl. unfold estimate_from_lines.
  destruct (recent_lines_suffix before (Decoded v) after Hlen) as [kept ->].
  rewrite reverse_app, reverse_cons, <- app_assoc.
  rewrite find_warning_quiet; [|by apply Forall_reverse].
  simpl. destruct v as [| | | | |m]; try done. by destruct (Hv m).
Qed.

Lemma py_min_cases a x :
  (py_min a x = inject_Z a ∧ (inject_Z a <= x)%Q) ∨
  (py_min a x = x ∧ (x < inject_Z a)%Q).
Proof.
  unfold py_min. destruct (Qle_bool (inject_Z a) x) eqn:H.
  - left. split; [done|]. by apply Qle_bool_iff.
  - right. split; [done|]. apply Qnot_le_lt. intros Hle.
    apply Qle_bool_iff in Hle. congruence.
Qed.

Lemma py_min_le_l a x : (py_min a x <= inject_Z a)%Q.
Proof.
  destruct (py_min_cases a x) as [[-> _]|[-> H]];
    [apply Qle_refl | by apply Qlt_le_weak].
Qed.

Lemma py_min_ge c a x : (c <= inject_Z a)%Q → (c <= x)%Q → (c <= py_min a x)%Q.
Proof. intros Ha Hx. by destruct (py_min_cases a x) as [[-> _]|[-> _]]. Qed.

Lemma py_min_pos a x : 0 < a → (0 < x)%Q → (0 < py_min a x)%Q.
Proof.
  intros Ha Hx. destruct (py_min_cases a x) as [[-> _]|[-> _]]; [|done].
  unfold Qlt, inject_Z. simpl. lia.
Qed.

Lemma utf8_length_nonneg s : 0 ≤ utf8_length s.
Proof.
  induction s as [|c s IH]; simpl; [done|].
  destruct (_ && _); lia.
Qed.

Lemma content_length_of_nonneg items n :
  content_length_of items = inr n → 0 ≤ n.
Proof.
  revert n. induction items as [|item items IH]; simpl; intros n.
  { intros [= <-]. done. }
  destruct (text_length item) as [x|k] eqn:Hk; simpl; [done|].
  destruct (content_length_of items) as [x|m]; simpl; [done|].
  intros [= <-]. specialize (IH m eq_refl).
  assert (0 ≤ k); [|lia].
  unfold text_length in Hk. destruct item as [| | | | |o]; try by injection Hk as <-.
  destruct (py_eq_str _ _); [|by injection Hk as <-].
  unfold py_len in Hk.
  destruct (dict_get o "text" (JStr "")) as [| | |t|l|o']; try done;
    injection Hk as <-; [apply utf8_length_nonneg|lia..].
Qed.

Lemma scan_depth_bounds st data st' stop :
  scan_depth st data = inr (st', stop) →
  0 ≤ conversation_depth st < 15 → 0 ≤ total_content_length st →
  0 ≤ total_content_length st' ∧
  conversation_depth st ≤ conversation_depth st' ≤ 15 ∧
  (stop = false → conversation_depth st' < 15).
Proof.
  unfold scan_depth. intros Hrun Hdepth Hlen.
  destruct (py_get data "type" JNull) as [x|type]; simpl in Hrun; [done|].
  destruct (py_eq_str type "assistant" || py_eq_str type "user").
  2:{ injection Hrun as <- <-. lia. }
  destruct (py_get data "message" (JObj ∅)) as [x|message]; simpl in Hrun; [done|].
  destruct (py_get message "content" (JArr [])) as [x|content]; simpl in Hrun; [done|].
  destruct (match content with JArr items => content_length_of items | _ => inr 0 end)
    as [x|added] eqn:Hadded; simpl in Hrun; [done|].
  injection Hrun as <- <-. simpl.
  assert (0 ≤ added).
  { destruct content as [| | | |items|]; try (injection Hadded as <-; lia).
    by apply (content_length_of_nonneg items). }
  split; [lia|]. split; [lia|]. intros Hstop. apply Z.leb_gt in Hstop. lia.
Qed.

Lemma scan_messages_bounds lines : ∀ st st',
  scan_messages st lines = inr st' →
  0 ≤ conversation_depth st < 15 → 0 ≤ total_content_length st →
  0 ≤ total_content_length st' ∧ conversation_depth st' ≤ 15.
Proof.
  induction lines as [|line lines IH]; intros st st' Hrun Hdepth Hlen; simpl in Hrun.
  { injection Hrun as <-. lia. }
  destruct line as [| |data]; [by apply (IH st)..|].
  destruct (scan_depth st data) as [x|[st1 stop]] eqn:Hstep; simpl in Hrun.
  { destruct (caught_in_loop x); [by apply (IH st)|done]. }
  destruct (scan_depth_bounds st data st1 stop Hstep Hdepth Hlen) as (H1 & H2 & H3).
  destruct stop.
  - injection Hrun as <-. lia.
  - apply (IH st1 st' Hrun); [|done]. specialize (H3 eq_refl). lia.
Qed.

(** X16.  The range of the estimate.  A result from token counts has a
    positive token total and a percentage above 0 and at most 99, and its
    cache total, when present, is positive.  A result from message sizes
    counts between 1 and 15 messages and has a percentage between 1.5
    and 85.  Unless it comes from a system warning, the percentage of
    every result is above 0 and at most 99. *)
Theorem estimate_range (t : transcript) (info : context_info) :
  parse_context_from_transcript t = inr info →
  match info with
  | RealTokens percent tokens cache =>
      0 < tokens ∧ (0 < percent)%Q ∧ (percent <= inject_Z 99)%Q ∧
      (∀ c, cache = Some c → 0 < c)
  | EnhancedEstimate percent messages content_length =>
      1 ≤ messages ≤ 15 ∧ 0 ≤ content_length ∧
      (3 # 2 <= percent)%Q ∧ (percent <= inject_Z 85)%Q
  | FixedEstimate _ | SystemWarning _ _ => True
  end ∧
  ((∀ p w, info ≠ SystemWarning p w) →
   (0 < percent_of info)%Q ∧ (percent_of info <= inject_Z 99)%Q).
Proof.
  intros Hrun.
  assert (match info with
          | RealTokens percent tokens cache =>
              0 < tokens ∧ (0 < percent)%Q ∧ (percent <= inject_Z 99)%Q ∧
              (∀ c, cache = Some c → 0 < c)
          | EnhancedEstimate percent messages content_length =>
              1 ≤ messages ≤ 15 ∧ 0 ≤ content_length ∧
              (3 # 2 <= percent)%Q ∧ (percent <= inject_Z 85)%Q
          | FixedEstimate _ | SystemWarning _ _ => True
          end) as Hshape.
  { destruct t as [| | |e|lines]; simpl in Hrun; try done;
      try by injection Hrun as <-.
    unfold estimate_from_lines in Hrun.
    destruct (find_warning _) as [x|[found|]] eqn:Hwarn; simpl in Hrun; [done| |].
    { injection Hrun as <-. clear -Hwarn. revert Hwarn.
      generalize (reverse (recent_lines lines)). intros l.
      induction l as [|[| |data] l IH]; simpl; try done.
      destruct (system_warning data) as [x|[info|]] eqn:Hsys;
        [by destruct (caught_in_loop x)| |exact IH].
      intros [= <-]. revert Hsys. unfold system_warning.
      destruct (py_get data "type" JNull) as [x|ty]; simpl; [done|].
      destruct (py_eq_str ty "system_message"); simpl; [|done].
      destruct (py_get data "content" (JStr "")) as [x|[| | |c| |]]; simpl; try done.
      destruct (search_context_low c) as [x|[low|]]; simpl; [done|by intros [= <-]|].
      destruct (search_auto_compact c) as [x|[low|]]; simpl;
        [done|by intros [= <-]|done]. }
    destruct (scan_tokens _ _) as [x|tokens]; simpl in Hrun; [done|].
    destruct (0 <? max_tokens_seen tokens) eqn:Hmax.
    { injection Hrun as <-. apply Z.ltb_lt in Hmax.
      split; [done|]. split; [|split; [apply py_min_le_l|]].
      - apply py_min_pos; [done|].
        unfold Qlt, Qdiv, Qmult, Qinv, inject_Z, CONTEXT_LIMIT. simpl. lia.
      - intros c. destruct (0 <? total_cache_tokens tokens) eqn:Hc; [|done].
        intros [= <-]. by apply Z.ltb_lt. }
    destruct (scan_messages _ _) as [x|depth] eqn:Hdepth; simpl in Hrun; [done|].
    destruct (0 <? conversation_depth depth) eqn:Hpos; [|by injection Hrun as <-].
    injection Hrun as <-. apply Z.ltb_lt in Hpos.
    destruct (scan_messages_bounds _ _ _ Hdepth) as [Hlen Hle]; simpl; [lia..|].
    split; [lia|]. split; [done|]. split; [|apply py_min_le_l].
    apply py_min_ge; [done|].
    apply (Qle_trans _ ((3 # 2) + 0)%Q); [by rewrite Qplus_0_r|].
    apply Qplus_le_compat.
    - apply py_min_ge; [done|].
      unfold Qle, Qmult, inject_Z. simpl. lia.
    - apply py_min_ge; [done|].
      unfold Qle, Qdiv, Qmult, Qinv, inject_Z. simpl. lia. }
  split; [exact Hshape|]. intros Hnot.
  destruct info as [m|p w|percent tokens cache|percent messages len]; simpl.
  - done.
  - by destruct (Hnot p w).
  - destruct Hshape as (_ & H1 & H2 & _). done.
  - destruct Hshape as (_ & _ & H1 & H2). split.
    + eapply Qlt_le_trans; [|exact H1]. done.
    + eapply Qle_trans; [exact H2|]. done.
Qed.

End ContextEstimateLaws.

Lemma only_last_thirty_lines_witness :
  @parse_context_from_transcript sample_regex
    (Lines ([system_line "Context low (12% remaining)"] ++ replicate 30 Blank)) =
  inr (FixedEstimate "default").
Proof.
  rewrite (@only_last_thirty_lines sample_regex); [reflexivity|].
  rewrite length_replicate. lia.
Defined.

Lemma newest_warning_wins_witness :
  @parse_context_from_transcript sample_regex
    (Lines ([system_line "Context left until auto-compact: 30%"] ++
            Decoded (JObj {[ "type" := JStr "system_message";
                             "content" := JStr "Context low (12% remaining)" ]})
            :: [user_line "hello"; Malformed])) =
  inr (SystemWarning 88 "low").
Proof.
  apply (proj1 (@newest_warning_wins sample_regex)).
  - simpl. lia.
  - reflexivity.
  - repeat constructor.
Defined.

Lemma non_object_line_raises_witness :
  @parse_context_from_transcript sample_regex
    (Lines ([system_line "Context low (12% remaining)"] ++
            Decoded (JArr []) :: [Blank])) =
  inl AttributeError.
Proof.
  apply (@non_object_line_raises sample_regex); [simpl; lia|done|].
  repeat constructor.
Defined.

Lemma estimate_range_witness :
  ∃ percent,
    @parse_context_from_transcript sample_regex
      (Lines [user_line "hello"; Blank]) = inr (EnhancedEstimate percent 1 5) ∧
    (percent <= inject_Z 85)%Q.
Proof.
  eexists. split; [reflexivity|].
  pose proof (@estimate_range sample_regex (Lines [user_line "hello"; Blank])
                _ eq_refl) as [H _].
  apply H.
Defined.

(** * The reset display *)

Section ResetDisplayLaws.

Context `{zone : LocalZone}.

Lemma local_hour_minute_shape d :
  ∃ h1 h2 m, local_hour_minute d = String h1 (String h2 (String ":" m)) ∧
             m = two_digits (((instant d + local_utcoffset (instant d)) / 60000000) `mod` 60).
Proof. unfold local_hour_minute, two_digits. simpl. eauto. Qed.

Lemma active_reset_display reset percent tokens start n :
  get_claude_session_reset (ActiveSession reset percent tokens start n) =
    String.append "L.R. @ " (String.append (local_hour_minute reset) "🕐").
Proof.
  unfold get_claude_session_reset, reset_time_item.
  destruct (local_hour_minute_shape reset) as (h1 & h2 & m & -> & Hm).
  assert (String.eqb (String h1 (String h2 (String ":" m))) "EXPIRED" = false) as ->.
  { apply String.eqb_neq. intros H. by injection H. }
  done.
Qed.

(** What the reset display shows.  Without data it is the placeholder;
    for an expired session it is [L.R. EXPIRED]; for an active session
    it is the local hour and minute of the block's end, never one of the
    other two. *)
Theorem reset_display_cases (data : session_data) :
  match data with
  | NoData => get_claude_session_reset data = "L.R. @ --:--"%string
  | ExpiredSession _ _ => get_claude_session_reset data = "L.R. EXPIRED"%string
  | ActiveSession reset _ _ _ _ =>
      get_claude_session_reset data =
        String.append "L.R. @ " (String.append (local_hour_minute reset) "🕐") ∧
      get_claude_session_reset data ≠ "L.R. EXPIRED"%string ∧
      get_claude_session_reset data ≠ "L.R. @ --:--"%string
  end.
Proof.
  destruct data as [|reset percent tokens start n|percent tokens]; [done| |done].
  unfold get_claude_session_reset, reset_time_item.
  destruct (local_hour_minute_shape reset) as (h1 & h2 & m & -> & Hm).
  assert (String.eqb (String h1 (String h2 (String ":" m))) "EXPIRED" = false) as ->.
  { apply String.eqb_neq. intros H. by injection H. }
  rewrite Hm. unfold two_digits. cbn [truthy String.append].
  split; [done|]. split; intros H; discriminate H.
Qed.

Lemma active_report_block now events reset percent tokens start n :
  analyze now events = inr (ActiveSession reset percent tokens start n) →
  ∃ first, dt_add (replace_hour (timestamp first)) session_duration = inr reset.
Proof.
  intros Hrun.
  apply analyze_inv in Hrun as [[_ [=]]|(_ & bs & _ & Hsel & Hok & _ & _)].
  unfold select in Hsel.
  pose proof (max_start_spec
                (filter (λ b, is_active b = true) (mark_active now bs))) as Hmax.
  destruct (max_start (filter _ (mark_active now bs))) as [m|].
  2:{ by destruct (max_start (mark_active now bs)). }
  rewrite active_report_cases in Hsel. destruct (reportable m); [|done].
  injection Hsel as <- _ _ _ _.
  destruct Hmax as [Hin _]. apply list_elem_of_filter in Hin as [_ Hin].
  apply list_elem_of_fmap in Hin as (b0 & -> & Hb0).
  rewrite Forall_forall in Hok.
  destruct (Hok b0 Hb0) as (f & r & _ & Hs & _ & Hend & _).
  destruct (mark_block_fields now b0) as (_ & _ & -> & _).
  exists f. by rewrite <- Hs.
Qed.

(** X17.  The reset time of an active session is shown on the hour whenever
    the local zone and the zone of the block's first timestamp differ by
    whole hours: the block ends five hours after an hour mark of that
    timestamp's own zone. *)
Theorem reset_shown_on_the_hour (now : Z) (events : list entry)
    reset percent tokens start n :
  analyze now events = inr (ActiveSession reset percent tokens start n) →
  (local_utcoffset (instant reset) - utcoffset reset) `mod` 3600000000 = 0 →
  ∃ hour,
    get_claude_session_reset (ActiveSession reset percent tokens start n) =
      String.append "L.R. @ " (String.append (String.append hour ":00") "🕐").
Proof.
  intros Hrun Hzone.
  destruct (active_report_block _ _ _ _ _ _ _ Hrun) as [first Hreset].
  apply dt_add_inv in Hreset as [_ Hreset].
  rewrite active_reset_display.
  set (local_wall := instant reset + local_utcoffset (instant reset)).
  exists (two_digits ((local_wall / 3600000000) `mod` 24)).
  do 2 f_equal. unfold local_hour_minute. fold local_wall.
  assert ((local_wall / 60000000) `mod` 60 = 0) as ->; [|done].
  assert (local_wall `mod` 3600000000 = 0) as Hmod.
  { unfold local_wall, instant at 1.
    replace (wall reset - utcoffset reset + local_utcoffset (instant reset))
      with (wall reset + (local_utcoffset (instant reset) - utcoffset reset)) by lia.
    rewrite Zplus_mod, Hzone, Z.add_0_r, Zmod_mod.
    rewrite Hreset.
    unfold replace_hour, session_duration, timedelta_hours. simpl.
    rewrite Zplus_mod, Zminus_mod, Zmod_mod, Z.sub_diag. done. }
  apply Z.mod_divide in Hmod as [k Hk]; [|done]. rewrite Hk.
  replace (k * 3600000000) with (k * 60 * 60000000) by lia.
  rewrite Z.div_mul by done. by rewrite Z.mod_mul.
Qed.

End ResetDisplayLaws.

Lemma reset_shown_on_the_hour_witness :
  ∃ hour,
    @get_claude_session_reset sample_zone
      (ActiveSession (utc (t_1015 - 900 + 18000)) (cost_percent_of 1500) 1500
         (utc (t_1015 - 900)) 1) =
    String.append "L.R. @ " (String.append (String.append hour ":00") "🕐").
Proof.
  apply (@reset_shown_on_the_hour sample_zone (timedelta_seconds t_1112)
           [sample_entry t_1015 500; sample_entry (t_1015 + 1800) 500;
            sample_entry (t_1015 + 3300) 500]); [vm_compute|]; reflexivity.
Defined.

(** * The lookback window *)

Section Lookback.

Context `{lib : PythonLibrary}.

(** X9.  Only the last 192 hours count.  Every entry that a run at [now]
    collects is at most 192 hours old, and a record whose timestamp is
    older leaves the state of ingestion as it is, whatever else it
    holds. *)
Theorem lookback_window (now : Z) :
  (∀ files en,
     en ∈ all_entries (load_entries (now - timedelta_hours hours_back) files) →
     now - instant (timestamp en) ≤ timedelta_hours 192) ∧
  (∀ p st (d : gmap string json) s ts,
     d !! "type" = Some (JStr "assistant") →
     d !! "timestamp" = Some (JStr s) →
     fromisoformat (replace_Z s) = Some (Aware ts) →
     timedelta_hours 192 < now - instant ts →
     ingest_line (now - timedelta_hours hours_back) p st (Decoded (JObj d)) = st).
Proof.
  split.
  - intros files en Hen. rewrite load_entries_visited in Hen.
    revert en Hen. apply Forall_forall.
    apply ingest_lines_entries_Forall; [|constructor].
    intros p en (_ & Hcut & _). unfold hours_back in Hcut. lia.
  - intros p st d s ts Hty Hts Hparse Hold.
    unfold ingest_line, process_line, dict_get, parse_timestamp.
    rewrite Hty, Hts. cbn -[replace_Z]. rewrite Hparse.
    assert ((instant ts <? now - timedelta_hours hours_back) = true) as Hcut.
    { apply Z.ltb_lt. unfold hours_back. lia. }
    destruct s; [done|]. simpl. by rewrite Hcut.
Qed.

End Lookback.

Lemma lookback_window_witness :
  @ingest_line sample_library
    (timedelta_seconds t_1112 + timedelta_hours 200 - timedelta_hours hours_back)
    "session.jsonl" ingest_init line_a = ingest_init.
Proof.
  unfold line_a, usage_line.
  apply (proj2 (@lookback_window sample_library
                  (timedelta_seconds t_1112 + timedelta_hours 200))
           "session.jsonl" ingest_init _ "2024-01-01T10:15:00Z" (utc t_1015));
    reflexivity.
Defined.
